(** * Concord: room registry, signaling relay, mesh orchestrator, voice activity

    A shallow embedding of the server (server/roomManager.js, server/index.js)
    and of the client's WebRTCManager (public/js), with the properties of the
    design document proved or refuted over it.

    Conventions.
    - A JavaScript string is its sequence of UTF-16 code units, [list N].
    - A JavaScript number is an IEEE 754 binary64, Rocq's primitive [float].
    - A JavaScript [Map] whose iteration order is observable (the participants
      of a room) is an association list with the insertion-order behaviour of
      [Map.prototype.set]; a [Map] that is only looked up (the registry, the
      peers) is a [gmap].
    - socket.io is the transport: a handler produces a list of emissions, and
      [recipients] resolves an emission to the connections that receive it. *)

From Stdlib Require Import ZArith NArith List Bool Floats Uint63 String Ascii.
From stdpp Require Import gmap list fin_maps.

Set Warnings "-inexact-float".
Local Open Scope N_scope.

(** ** JavaScript values *)

Module Js.

Abbreviation jsstring := (list N).

(** ASCII literals of the source, as code units. *)
Fixpoint lit (s : String.string) : jsstring :=
  match s with
  | EmptyString => []
  | String a s' => N_of_ascii a :: lit s'
  end.

Inductive value : Type :=
  | VUndefined
  | VNull
  | VBool (b : bool)
  | VNum (x : float)
  | VStr (s : jsstring)
  | VObj (ref : N).

(** ToBoolean: [undefined], [null], [false], [0], [-0], [NaN] and the empty
    string are falsy; everything else, objects included, is truthy. *)
Definition truthy (v : value) : bool :=
  match v with
  | VUndefined | VNull => false
  | VBool b => b
  | VNum x => negb (PrimFloat.eqb x 0%float || PrimFloat.is_nan x)
  | VStr s => match s with [] => false | _ => true end
  | VObj _ => true
  end.

Definition truthy_str (s : jsstring) : bool :=
  match s with [] => false | _ => true end.

(** [typeof v === 'string'] *)
Definition is_string (v : value) : bool :=
  match v with VStr _ => true | _ => false end.

(** WhiteSpace and LineTerminator code points: what [String.prototype.trim]
    strips and what [\s] matches. *)
Definition is_space (c : N) : bool :=
  ((9 <=? c) && (c <=? 13)) || (c =? 32) || (c =? 160) || (c =? 5760)
  || ((8192 <=? c) && (c <=? 8202)) || (c =? 8232) || (c =? 8233)
  || (c =? 8239) || (c =? 8287) || (c =? 12288) || (c =? 65279).

Fixpoint trimStart (s : jsstring) : jsstring :=
  match s with
  | c :: s' => if is_space c then trimStart s' else s
  | [] => []
  end.

Definition trimEnd (s : jsstring) : jsstring := rev (trimStart (rev s)).

Definition trim (s : jsstring) : jsstring := trimEnd (trimStart s).

(** [s.slice(0, n)] *)
Definition slice0 (n : nat) (s : jsstring) : jsstring := firstn n s.

(** The first and the last code unit of [s], if any, are not whitespace. *)
Definition edgesOk (s : jsstring) : bool :=
  match s with [] => true | c :: _ => negb (is_space c) end
  && match rev s with [] => true | c :: _ => negb (is_space c) end.

End Js.

Import Js.

(** ** Insertion-ordered maps

    [Map.prototype.set] keeps the position of a key that is already present and
    appends a new key; [values()] iterates in insertion order. *)

Module OMap.
Section Ops.
Context {V : Type}.

Fixpoint get (k : jsstring) (m : list (jsstring * V)) : option V :=
  match m with
  | [] => None
  | (k', v) :: m' => if decide (k' = k) then Some v else get k m'
  end.

Fixpoint set (k : jsstring) (v : V) (m : list (jsstring * V))
  : list (jsstring * V) :=
  match m with
  | [] => [(k, v)]
  | (k', v') :: m' =>
      if decide (k' = k) then (k, v) :: m' else (k', v') :: set k v m'
  end.

Definition delete (k : jsstring) (m : list (jsstring * V))
  : list (jsstring * V) :=
  List.filter (fun e => negb (bool_decide (fst e = k))) m.

Definition values (m : list (jsstring * V)) : list V := List.map snd m.

Definition size (m : list (jsstring * V)) : nat := length m.

End Ops.
End OMap.

(** ** server/roomManager.js *)

Module RoomManager.

Record Participant := mkParticipant {
  socketId : jsstring;
  username : jsstring;
  peerId : value;
  isMuted : value
}.

(** [new Participant(socketId, username, peerId)] *)
Definition newParticipant (sid uname : jsstring) (pid : value) : Participant :=
  mkParticipant sid uname pid (VBool false).

Record Room := mkRoom {
  id : jsstring;
  creator : jsstring;
  participants : list (jsstring * Participant);
  createdAt : Z
}.

(** [new Room(id, creatorSocketId)]; [now] is [Date.now()]. *)
Definition newRoom (rid creatorSocketId : jsstring) (now : Z) : Room :=
  mkRoom rid creatorSocketId [] now.

Definition withParticipants (r : Room) (ps : list (jsstring * Participant))
  : Room :=
  mkRoom (id r) (creator r) ps (createdAt r).

Definition addParticipant (r : Room) (sid uname : jsstring) (pid : value)
  : Room :=
  withParticipants r (OMap.set sid (newParticipant sid uname pid) (participants r)).

Definition removeParticipant (r : Room) (sid : jsstring) : Room :=
  withParticipants r (OMap.delete sid (participants r)).

Definition getParticipant (r : Room) (sid : jsstring) : option Participant :=
  OMap.get sid (participants r).

Definition isCreator (r : Room) (sid : jsstring) : bool :=
  bool_decide (creator r = sid).

Definition getParticipantsList (r : Room) : list Participant :=
  List.map (fun p => mkParticipant (socketId p) (username p) (peerId p) (isMuted p))
    (OMap.values (participants r)).

Definition isEmpty (r : Room) : bool :=
  Nat.eqb (OMap.size (participants r)) 0.

(** The registry, [this.rooms]. *)
Definition getRoom (rooms : gmap jsstring Room) (rid : jsstring) : option Room :=
  rooms !! rid.

Definition getOrCreateRoom (rooms : gmap jsstring Room)
    (rid creatorSocketId : jsstring) (now : Z) : gmap jsstring Room * Room :=
  match rooms !! rid with
  | Some r => (rooms, r)
  | None =>
      let r := newRoom rid creatorSocketId now in
      (<[rid := r]> rooms, r)
  end.

Definition removeRoom (rooms : gmap jsstring Room) (rid : jsstring)
  : gmap jsstring Room :=
  base.delete rid rooms.


Definition is_letter (c : N) : bool :=
  ((97 <=? c) && (c <=? 122)) || ((65 <=? c) && (c <=? 90)).

Definition is_digit (c : N) : bool := (48 <=? c) && (c <=? 57).

(** The complement of the class [[^a-zA-Z0-9\s\-\_\.]]. *)
Definition username_char (c : N) : bool :=
  is_letter c || is_digit c || is_space c
  || (c =? 45) || (c =? 95) || (c =? 46).

Definition Anonymous : jsstring := lit "Anonymous".

(** [username.trim().slice(0, 50).replace(/[^a-zA-Z0-9\s\-\_\.]/g, '')] *)
Definition cleanUsername (s : jsstring) : jsstring :=
  List.filter username_char (slice0 50 (trim s)).

Definition sanitizeUsername (username : value) : jsstring :=
  if negb (truthy username) || negb (is_string username) then Anonymous
  else
    match username with
    | VStr s =>
        let r := cleanUsername s in
        if truthy_str r then r else Anonymous
    | _ => Anonymous
    end.

(** [message.trim().slice(0, 1000)], the empty string for anything else. *)
Definition sanitizeMessage (message : value) : jsstring :=
  if negb (truthy message) || negb (is_string message) then []
  else
    match message with
    | VStr s => slice0 1000 (trim s)
    | _ => []
    end.

(** What is left of an input once it is sanitized: nothing for a non-string. *)
Definition sanitized (username : value) : jsstring :=
  match username with
  | VStr s => cleanUsername s
  | _ => []
  end.

End RoomManager.

(** ** server/index.js: the signaling relay *)

Module Server.
Import RoomManager.

(** The closure of one connection: [currentRoomId], [currentUsername]
    ([None] is [null]) and [socket.rooms], the socket.io rooms it is in. *)
Record Session := mkSession {
  currentRoomId : option jsstring;
  currentUsername : option jsstring;
  socketRooms : gset jsstring
}.

Record State := mkState {
  rooms : gmap jsstring Room;
  sockets : gmap jsstring Session
}.

Definition init : State := mkState ∅ ∅.

(** Messages received from a client; the first argument is [socket.id].
    Socket and room identifiers are strings: socket.io issues the former and
    the page sends its URL path as the latter.  The other fields are whatever
    the client put in the payload. *)
Inductive Event : Type :=
  | Connect (sid : jsstring)
  | JoinRoom (sid roomId : jsstring) (username peerId : value)
  | WebrtcOffer (sid to : jsstring) (offer : value)
  | WebrtcAnswer (sid to : jsstring) (answer : value)
  | IceCandidate (sid to : jsstring) (candidate : value)
  | SendMessage (sid : jsstring) (message : value)
  | ToggleMute (sid : jsstring) (isMuted : value)
  | KickUser (sid targetSocketId : jsstring)
  | Disconnect (sid : jsstring).

(** Messages sent to clients. *)
Inductive Msg : Type :=
  | RoomJoined (others : list Participant) (isCreator : bool)
  | UserJoined (sid username : jsstring) (peerId : value)
  | OfferFrom (from : jsstring) (offer : value)
  | AnswerFrom (from : jsstring) (answer : value)
  | CandidateFrom (from : jsstring) (candidate : value)
  | ReceiveMessage (username : option jsstring) (message : jsstring)
      (timestamp : Z) (sid : jsstring)
  | UserMuted (sid : jsstring) (isMuted : value)
  | YouWereKicked
  | UserKicked (sid : jsstring)
  | UserLeft (sid : jsstring)
  | Error (message : jsstring).

(** [socket.emit], [socket.to(room).emit] and [io.to(room).emit]. *)
Inductive Emit : Type :=
  | SocketEmit (sid : jsstring) (m : Msg)
  | SocketTo (sid room : jsstring) (m : Msg)
  | IoTo (room : jsstring) (m : Msg).

Definition inRoom (st : State) (t room : jsstring) : bool :=
  match sockets st !! t with
  | Some sess => bool_decide (room ∈ socketRooms sess)
  | None => false
  end.

(** Whether connection [t] receives emission [e]: [socket.emit] reaches the
    socket itself, [socket.to(room)] every socket of the room but the sender,
    [io.to(room)] every socket of the room.  [st] is the state the handler
    starts from: a handler changes the socket.io rooms of its own socket only
    before it emits, and of another socket only after. *)
Definition receives (st : State) (t : jsstring) (e : Emit) : bool :=
  match e with
  | SocketEmit sid _ =>
      bool_decide (t = sid) && bool_decide (is_Some (sockets st !! t))
  | SocketTo sid room _ => inRoom st t room && negb (bool_decide (t = sid))
  | IoTo room _ => inRoom st t room
  end.

(** [if (!currentRoomId) return;]: the room of a session that passes it. *)
Definition joinedRoom (sess : Session) : option jsstring :=
  match currentRoomId sess with
  | Some rid => if truthy_str rid then Some rid else None
  | None => None
  end.

(** A new connection: both closure variables are [null], and the socket is in
    the socket.io room of its own id. *)
Definition on_connection (st : State) (sid : jsstring) : State * list Emit :=
  match sockets st !! sid with
  | Some _ => (st, [])
  | None =>
      (mkState (rooms st) (<[sid := mkSession None None {[sid]}]> (sockets st)),
       [])
  end.

Definition on_join_room (now : Z) (st : State) (sid : jsstring) (sess : Session)
    (roomId : jsstring) (uname pid : value) : State * list Emit :=
  let sanitizedUsername := sanitizeUsername uname in
  let '(rooms1, room) := getOrCreateRoom (rooms st) roomId sid now in
  let room' := addParticipant room sid sanitizedUsername pid in
  let sess' := mkSession (Some roomId) (Some sanitizedUsername)
                 ({[roomId]} ∪ socketRooms sess) in
  let otherParticipants :=
    List.filter (fun p => negb (bool_decide (socketId p = sid)))
      (getParticipantsList room') in
  (mkState (<[roomId := room']> rooms1) (<[sid := sess']> (sockets st)),
   [SocketEmit sid (RoomJoined otherParticipants (isCreator room' sid));
    SocketTo sid roomId (UserJoined sid sanitizedUsername pid)]).

Definition on_webrtc_offer (st : State) (sid to : jsstring) (offer : value)
  : State * list Emit :=
  (st, [SocketTo sid to (OfferFrom sid offer)]).

Definition on_webrtc_answer (st : State) (sid to : jsstring) (answer : value)
  : State * list Emit :=
  (st, [SocketTo sid to (AnswerFrom sid answer)]).

Definition on_ice_candidate (st : State) (sid to : jsstring) (candidate : value)
  : State * list Emit :=
  (st, [SocketTo sid to (CandidateFrom sid candidate)]).

Definition on_send_message (now : Z) (st : State) (sid : jsstring)
    (sess : Session) (message : value) : State * list Emit :=
  match joinedRoom sess with
  | None => (st, [])
  | Some rid =>
      let sanitizedMessage := sanitizeMessage message in
      if negb (truthy_str sanitizedMessage) then (st, [])
      else (st, [IoTo rid (ReceiveMessage (currentUsername sess)
                             sanitizedMessage now sid)])
  end.

Definition setMuted (p : Participant) (m : value) : Participant :=
  mkParticipant (socketId p) (username p) (peerId p) m.

Definition on_toggle_mute (st : State) (sid : jsstring) (sess : Session)
    (muted : value) : State * list Emit :=
  match joinedRoom sess with
  | None => (st, [])
  | Some rid =>
      match getRoom (rooms st) rid with
      | None => (st, [])
      | Some room =>
          match getParticipant room sid with
          | None => (st, [])
          | Some p =>
              let room' :=
                withParticipants room
                  (OMap.set sid (setMuted p muted) (participants room)) in
              (mkState (<[rid := room']> (rooms st)) (sockets st),
               [SocketTo sid rid (UserMuted sid muted)])
          end
      end
  end.

(** [kickedSocket.leave(currentRoomId)] *)
Definition leave (rid : jsstring) (sess : Session) : Session :=
  mkSession (currentRoomId sess) (currentUsername sess)
    (socketRooms sess ∖ {[rid]}).

Definition on_kick_user (st : State) (sid : jsstring) (sess : Session)
    (targetSocketId : jsstring) : State * list Emit :=
  match joinedRoom sess with
  | None => (st, [])
  | Some rid =>
      match getRoom (rooms st) rid with
      | None => (st, [])
      | Some room =>
          if negb (isCreator room sid) then
            (st, [SocketEmit sid
                    (Error (lit "Only the room creator can kick users"))])
          else if bool_decide (targetSocketId = sid) then
            (st, [SocketEmit sid (Error (lit "Cannot kick yourself"))])
          else
            let room' := removeParticipant room targetSocketId in
            (mkState (<[rid := room']> (rooms st))
               (alter (leave rid) targetSocketId (sockets st)),
             [IoTo targetSocketId YouWereKicked;
              SocketTo sid rid (UserKicked targetSocketId)])
      end
  end.

Definition on_disconnect (st : State) (sid : jsstring) (sess : Session)
  : State * list Emit :=
  let sockets' := base.delete sid (sockets st) in
  match joinedRoom sess with
  | None => (mkState (rooms st) sockets', [])
  | Some rid =>
      match getRoom (rooms st) rid with
      | None => (mkState (rooms st) sockets', [])
      | Some room =>
          let room' := removeParticipant room sid in
          let rooms1 := <[rid := room']> (rooms st) in
          let rooms2 := if isEmpty room' then removeRoom rooms1 rid else rooms1 in
          (mkState rooms2 sockets', [SocketTo sid rid (UserLeft sid)])
      end
  end.

(** The connection an event arrives on. *)
Definition sender (ev : Event) : jsstring :=
  match ev with
  | Connect s | JoinRoom s _ _ _ | WebrtcOffer s _ _ | WebrtcAnswer s _ _
  | IceCandidate s _ _ | SendMessage s _ | ToggleMute s _ | KickUser s _
  | Disconnect s => s
  end.

(** One event, handled to completion (the relay is single-threaded); [now] is
    the clock read by [Date.now()].  Handlers exist only on live connections. *)
Definition handle (now : Z) (st : State) (ev : Event) : State * list Emit :=
  match ev with
  | Connect sid => on_connection st sid
  | _ =>
      match sockets st !! sender ev with
      | None => (st, [])
      | Some sess =>
          match ev with
          | Connect _ => (st, [])
          | JoinRoom sid rid u p => on_join_room now st sid sess rid u p
          | WebrtcOffer sid to o => on_webrtc_offer st sid to o
          | WebrtcAnswer sid to a => on_webrtc_answer st sid to a
          | IceCandidate sid to c => on_ice_candidate st sid to c
          | SendMessage sid m => on_send_message now st sid sess m
          | ToggleMute sid m => on_toggle_mute st sid sess m
          | KickUser sid t => on_kick_user st sid sess t
          | Disconnect sid => on_disconnect st sid sess
          end
      end
  end.

(** A run: events with the clock value at which each is handled. *)
Fixpoint run (st : State) (evs : list (Z * Event)) : State :=
  match evs with
  | [] => st
  | (now, ev) :: evs' => run (fst (handle now st ev)) evs'
  end.

Definition reachable (st : State) : Prop := exists evs, st = run init evs.

(** The identities in room [rid] of the registry; none when it has no such room. *)
Definition members (st : State) (rid : jsstring) : list jsstring :=
  match rooms st !! rid with
  | Some room => List.map fst (participants room)
  | None => []
  end.

(** Room [rid] stays registered in every state of the run of [evs] from [st]. *)
Fixpoint registered_along (rid : jsstring) (st : State) (evs : list (Z * Event))
  : Prop :=
  is_Some (rooms st !! rid) /\
  match evs with
  | [] => True
  | (now, ev) :: evs' => registered_along rid (fst (handle now st ev)) evs'
  end.

(** [ev] is a join request of connection [sid]. *)
Definition joins_as (sid : jsstring) (ev : Event) : bool :=
  match ev with
  | JoinRoom s _ _ _ => bool_decide (s = sid)
  | _ => false
  end.

(** The join confirmation and the join announcement. *)
Definition is_join_msg (e : Emit) : bool :=
  match e with
  | SocketEmit _ (RoomJoined _ _) | SocketTo _ _ (RoomJoined _ _)
  | IoTo _ (RoomJoined _ _) => true
  | SocketEmit _ (UserJoined _ _ _) | SocketTo _ _ (UserJoined _ _ _)
  | IoTo _ (UserJoined _ _ _) => true
  | _ => false
  end.

(** A join request that would be rejected: no room and no session context
    changes, and neither a confirmation nor an announcement is emitted. *)
Definition join_rejected (now : Z) (st : State) (sid roomId : jsstring)
    (uname pid : value) : Prop :=
  let r := handle now st (JoinRoom sid roomId uname pid) in
  rooms (fst r) = rooms st
  /\ sockets (fst r) !! sid = sockets st !! sid
  /\ forall e, In e (snd r) -> is_join_msg e = false.

(** A kick request of a live connection that is refused with an error sent to
    the requester, room [rid] staying as it was, whenever the requester is not
    the creator of [rid] or targets itself. *)
Definition kick_refused_with_error (now : Z) (st : State)
    (sid t rid : jsstring) : Prop :=
  forall room,
    rooms st !! rid = Some room ->
    is_Some (sockets st !! sid) ->
    creator room <> sid \/ t = sid ->
    (exists msg,
       snd (handle now st (KickUser sid t)) = [SocketEmit sid (Error msg)])
    /\ rooms (fst (handle now st (KickUser sid t))) !! rid = Some room.

(** An event whose emissions reach no connection. *)
Definition forwards_nothing (now : Z) (st : State) (ev : Event) : Prop :=
  forall t e, In e (snd (handle now st ev)) -> receives st t e = false.

(** What every reachable state satisfies: a registered room is not empty, and
    a creator whose session is bound to its room is one of its participants. *)
Record Inv (st : State) : Prop := mkInv {
  inv_nonempty : forall rid room,
    rooms st !! rid = Some room -> isEmpty room = false;
  inv_creator : forall rid room sess,
    rooms st !! rid = Some room ->
    sockets st !! creator room = Some sess ->
    currentRoomId sess = Some rid ->
    is_Some (getParticipant room (creator room))
}.

(** The session of [sid], when it has one, is bound to no room. *)
Definition unbound (sid : jsstring) (st : State) : Prop :=
  forall sess, sockets st !! sid = Some sess -> currentRoomId sess = None.

End Server.

(** ** public/js, class WebRTCManager: the mesh orchestrator and the speaking
    detector *)

Module WebRTC.

(** A [SimplePeer] instance, as far as the manager sees it: the role it was
    created with and the data handed to [peer.signal], in order. *)
Record Peer := mkPeer {
  initiator : bool;
  signalled : list value
}.

(** [this.peers], the [<audio id="audio-<socketId>">] elements of the page,
    and whether [callbacks.peerDisconnected] is set. *)
Record Manager := mkManager {
  peers : gmap jsstring Peer;
  audioElements : gset jsstring;
  peerDisconnected : bool
}.

Inductive Effect : Type :=
  | PeerDestroyed (socketId : jsstring)
  | AudioRemoved (socketId : jsstring)
  | PeerDisconnected (socketId : jsstring).

Definition withPeers (m : Manager) (ps : gmap jsstring Peer) : Manager :=
  mkManager ps (audioElements m) (peerDisconnected m).

(** [peer.signal(data)] *)
Definition signal (p : Peer) (data : value) : Peer :=
  mkPeer (initiator p) (signalled p ++ [data]).

(** Returns the new peer, or [None] ([undefined]) when one exists already. *)
Definition createPeerConnection (m : Manager) (remoteSocketId : jsstring)
    (isInitiator : bool) : Manager * option Peer :=
  match peers m !! remoteSocketId with
  | Some _ => (m, None)
  | None =>
      let peer := mkPeer isInitiator [] in
      (withPeers m (<[remoteSocketId := peer]> (peers m)), Some peer)
  end.

Definition handleOffer (m : Manager) (fromSocketId : jsstring) (offer : value)
  : Manager :=
  match createPeerConnection m fromSocketId false with
  | (m', Some peer) =>
      withPeers m' (<[fromSocketId := signal peer offer]> (peers m'))
  | (m', None) => m'
  end.

Definition handleAnswer (m : Manager) (fromSocketId : jsstring) (answer : value)
  : Manager :=
  match peers m !! fromSocketId with
  | Some peer => withPeers m (<[fromSocketId := signal peer answer]> (peers m))
  | None => m
  end.

Definition handleICECandidate (m : Manager) (fromSocketId : jsstring)
    (candidate : value) : Manager :=
  match peers m !! fromSocketId with
  | Some peer => withPeers m (<[fromSocketId := signal peer candidate]> (peers m))
  | None => m
  end.

Definition removePeer (m : Manager) (socketId : jsstring)
  : Manager * list Effect :=
  let '(peers1, e1) :=
    match peers m !! socketId with
    | Some _ => (base.delete socketId (peers m), [PeerDestroyed socketId])
    | None => (peers m, [])
    end in
  let '(audio1, e2) :=
    if bool_decide (socketId ∈ audioElements m)
    then (audioElements m ∖ {[socketId]}, [AudioRemoved socketId])
    else (audioElements m, []) in
  let e3 := if peerDisconnected m then [PeerDisconnected socketId] else [] in
  (mkManager peers1 audio1 (peerDisconnected m), e1 ++ e2 ++ e3).

(** A candidate that arrives before the offer and is applied once the offer
    has created the link. *)
Definition candidate_kept (m : Manager) (fromSocketId : jsstring)
    (candidate offer : value) : Prop :=
  exists peer,
    peers (handleOffer (handleICECandidate m fromSocketId candidate)
             fromSocketId offer) !! fromSocketId = Some peer
    /\ In candidate (signalled peer).

(** A second [removePeer] that changes and does nothing more, and a
    [removePeer] without a link that does nothing at all. *)
Definition removePeer_idempotent (m : Manager) (socketId : jsstring) : Prop :=
  removePeer (fst (removePeer m socketId)) socketId
  = (fst (removePeer m socketId), []).

Definition removePeer_noop (m : Manager) (socketId : jsstring) : Prop :=
  peers m !! socketId = None -> removePeer m socketId = (m, []).

(** *** Speaking detection *)

Local Open Scope float_scope.

Inductive Callback : Type :=
  | Speaking (who : jsstring) (isSpeaking : bool).

Definition toNumber (n : N) : float := PrimFloat.of_uint63 (Uint63.of_Z (Z.of_N n)).

(** [Math.max(a, b)] *)
Definition mathMax (a b : float) : float :=
  if PrimFloat.is_nan a || PrimFloat.is_nan b then nan
  else if PrimFloat.ltb a b then b
  else if PrimFloat.ltb b a then a
  else match PrimFloat.classify a with NZero => b | _ => a end.

(** The volume of one window of [getByteTimeDomainData]: its root mean square
    around 128, scaled to 0..255. *)
Definition volumeOf (dataArray : list N) : float :=
  let sum :=
    fold_left (fun sum b =>
                 let normalized := (toNumber b - 128) / 128 in
                 sum + normalized * normalized) dataArray 0 in
  let rms := PrimFloat.sqrt (sum / toNumber (N.of_nat (length dataArray))) in
  rms * 255.

(** [volumeHistory.push(volume)], then [shift()] when over [historyLength]. *)
Definition pushHistory (historyLength : nat) (volumeHistory : list float)
    (volume : float) : list float :=
  let h := volumeHistory ++ [volume] in
  if Nat.ltb historyLength (length h) then tl h else h.

Definition thresholdOf (volumeHistory : list float) : float :=
  let avgVolume :=
    fold_left (fun a b => a + b) volumeHistory 0
    / toNumber (N.of_nat (length volumeHistory)) in
  mathMax 5 (avgVolume * 1.5).

(** The closure of [detectSpeaking]. *)
Record Detector := mkDetector {
  isSpeaking : bool;
  volumeHistory : list float
}.

Definition newDetector : Detector := mkDetector false [].

(** One tick of [checkAudioLevel]; [cb] tells whether [callbacks.speaking] is
    set. *)
Definition checkAudioLevel (cb : bool) (socketId : jsstring) (d : Detector)
    (dataArray : list N) : Detector * list Callback :=
  let volume := volumeOf dataArray in
  let h := pushHistory 50 (volumeHistory d) volume in
  let threshold := thresholdOf h in
  let newIsSpeaking := PrimFloat.ltb threshold volume in
  if negb (Bool.eqb newIsSpeaking (isSpeaking d)) then
    (mkDetector newIsSpeaking h,
     if cb then [Speaking socketId newIsSpeaking] else [])
  else (mkDetector (isSpeaking d) h, []).

(** The closure of [monitorLocalAudio]. *)
Record LocalDetector := mkLocalDetector {
  isLocalSpeaking : bool;
  maxVolume : float;
  minVolume : float;
  localHistory : list float
}.

Definition newLocalDetector : LocalDetector := mkLocalDetector false 0 255 [].

(** One tick of [checkLocalAudioLevel]; [hasStream] is [this.localStream]
    being set and [muted] is [this.isMuted].  The level bar and the icon
    classes it also updates are page rendering and are left out. *)
Definition checkLocalAudioLevel (cb hasStream muted : bool) (d : LocalDetector)
    (dataArray : list N) : LocalDetector * list Callback :=
  if negb hasStream then (d, [])
  else
    let volume := volumeOf dataArray in
    let h := pushHistory 100 (localHistory d) volume in
    let maxVolume' :=
      if PrimFloat.ltb (maxVolume d) volume then volume
      else maxVolume d * 0.999 in
    let minVolume' :=
      if PrimFloat.ltb volume (minVolume d) && PrimFloat.ltb 0 volume
      then volume else minVolume d in
    let threshold := thresholdOf h in
    let newIsLocalSpeaking := PrimFloat.ltb threshold volume && negb muted in
    if negb (Bool.eqb newIsLocalSpeaking (isLocalSpeaking d)) then
      (mkLocalDetector newIsLocalSpeaking maxVolume' minVolume' h,
       if cb then [Speaking (lit "local") newIsLocalSpeaking] else [])
    else (mkLocalDetector (isLocalSpeaking d) maxVolume' minVolume' h, []).

(** The ticks of one remote stream, one window per animation frame. *)
Fixpoint monitor (cb : bool) (socketId : jsstring) (d : Detector)
    (windows : list (list N)) : Detector * list Callback :=
  match windows with
  | [] => (d, [])
  | w :: ws =>
      let '(d1, e1) := checkAudioLevel cb socketId d w in
      let '(d2, e2) := monitor cb socketId d1 ws in
      (d2, e1 ++ e2)
  end.

(** The ticks of the local stream, each with the mute flag at that tick. *)
Fixpoint monitorLocal (cb : bool) (d : LocalDetector)
    (windows : list (bool * list N)) : LocalDetector * list Callback :=
  match windows with
  | [] => (d, [])
  | (muted, w) :: ws =>
      let '(d1, e1) := checkLocalAudioLevel cb true muted d w in
      let '(d2, e2) := monitorLocal cb d1 ws in
      (d2, e1 ++ e2)
  end.

Definition flagOf (c : Callback) : bool :=
  match c with Speaking _ b => b end.

(** Each flag of the sequence differs from the one before it, [b] first. *)
Fixpoint alternates (b : bool) (flags : list bool) : Prop :=
  match flags with
  | [] => True
  | x :: xs => x = negb b /\ alternates x xs
  end.

End WebRTC.

(** ** Well-formed relay states and runs of joins *)

Module Wellformed.
Import RoomManager Server.

(** A name as [sanitizeUsername] returns it. *)
Definition validName (u : jsstring) : bool :=
  Nat.leb (length u) 50 && forallb username_char u.

Definition keysOf (r : Room) : list jsstring := List.map fst (participants r).

(** A room is stored under its own id, its participants have distinct
    identities, each is keyed by its own [socketId] and has a sanitized name. *)
Record RoomOk (rid : jsstring) (r : Room) : Prop := mkRoomOk {
  ok_id : id r = rid;
  ok_nodup : NoDup (keysOf r);
  ok_entries :
    Forall (fun e => socketId (snd e) = fst e
                     /\ validName (username (snd e)) = true)
      (participants r)
}.

Record WellFormed (st : State) : Prop := mkWellFormed {
  wf_rooms : forall rid r, rooms st !! rid = Some r -> RoomOk rid r;
  wf_names : forall sid sess u,
    sockets st !! sid = Some sess -> currentUsername sess = Some u ->
    validName u = true
}.

(** Runs in which room identifiers and socket identifiers do not meet: every
    connecting socket has its id in [ids] and no join names a room in [ids]. *)
Definition separates (ids : gset jsstring) (ev : Event) : Prop :=
  match ev with
  | Connect sid => sid ∈ ids
  | JoinRoom _ rid _ _ => rid ∉ ids
  | _ => True
  end.

(** Every live socket is in the socket.io room of its own id, and in no room
    named by a socket id other than its own; no session is bound to a room
    named by a socket id. *)
Record Addressed (ids : gset jsstring) (st : State) : Prop := mkAddressed {
  ad_live : forall sid sess, sockets st !! sid = Some sess -> sid ∈ ids;
  ad_own : forall sid sess, sockets st !! sid = Some sess ->
    sid ∈ socketRooms sess;
  ad_only : forall sid sess, sockets st !! sid = Some sess ->
    forall x, x ∈ socketRooms sess -> x ∈ ids -> x = sid;
  ad_bound : forall sid sess, sockets st !! sid = Some sess ->
    forall rid, currentRoomId sess = Some rid -> rid ∉ ids
}.

(** The join requests of the sessions of [js], in order, into room [rid]. *)
Definition joins (now : Z) (rid : jsstring)
    (js : list (jsstring * (value * value))) : list (Z * Event) :=
  List.map (fun j => (now, JoinRoom (fst j) rid (fst (snd j)) (snd (snd j)))) js.

(** [p => p.socketId !== socket.id] *)
Definition notSid (sid : jsstring) (p : Participant) : bool :=
  negb (bool_decide (socketId p = sid)).

(** The identities of a roster, as the joining client reads them. *)
Definition rosterIds (others : list Participant) : list jsstring :=
  List.map socketId others.

End Wellformed.

(** ** The client's side of the signaling, and the page's roster handler *)

Module Mesh.
Import WebRTC.

(** What the relay delivers to a client: the [from] field and the payload. *)
Inductive Signal : Type :=
  | GotOffer (from : jsstring) (offer : value)
  | GotAnswer (from : jsstring) (answer : value)
  | GotCandidate (from : jsstring) (candidate : value).

Definition receive (m : Manager) (s : Signal) : Manager :=
  match s with
  | GotOffer from offer => handleOffer m from offer
  | GotAnswer from answer => handleAnswer m from answer
  | GotCandidate from candidate => handleICECandidate m from candidate
  end.

Definition receiveAll (m : Manager) (ss : list Signal) : Manager :=
  fold_left receive ss m.

(** The payloads of [ss] that an existing link to [remote] is handed: its
    answers and candidates, an offer for an existing link being ignored. *)
Fixpoint handedTo (remote : jsstring) (ss : list Signal) : list value :=
  match ss with
  | [] => []
  | GotOffer _ _ :: ss' => handedTo remote ss'
  | GotAnswer from v :: ss' | GotCandidate from v :: ss' =>
      if bool_decide (from = remote) then v :: handedTo remote ss'
      else handedTo remote ss'
  end.

(** [ConcordApp.handleRoomJoined], as far as it drives the manager: one
    [createPeerConnection(participant.socketId, true)] per roster entry, in
    order.  The page's own participant list and its rendering are left out. *)
Definition handleRoomJoined (m : Manager) (roster : list jsstring) : Manager :=
  fold_left (fun m sid => fst (createPeerConnection m sid true)) roster m.

(** [WebRTCManager.toggleMute]: the stream state it reads and writes.
    [trackEnabled] is the [enabled] flag it sets on every audio track. *)
Record Mic := mkMic {
  hasStream : bool;
  isMuted : bool;
  trackEnabled : bool
}.

(** Returns the new state, the flag sent to the relay by
    [socketManager.toggleMute], and the returned value ([None] is
    [undefined]). *)
Definition toggleMute (mic : Mic) : Mic * list bool * option bool :=
  if negb (hasStream mic) then (mic, [], None)
  else
    let muted := negb (isMuted mic) in
    (mkMic (hasStream mic) muted (negb muted), [muted], Some muted).

(** [n] presses of the mute button: the final state and the flags sent. *)
Fixpoint toggles (n : nat) (mic : Mic) : Mic * list bool :=
  match n with
  | O => (mic, [])
  | S n' =>
      let '(mic1, sent1, _) := toggleMute mic in
      let '(mic2, sent2) := toggles n' mic1 in
      (mic2, sent1 ++ sent2)
  end.

(** The last [n] elements of a list. *)
Definition lastN {A : Type} (n : nat) (l : list A) : list A :=
  drop (length l - n) l.

End Mesh.

(** ** A concrete session: A creates room R, B joins it *)

Module Scenario.
Import RoomManager Server.

Definition sA : jsstring := lit "sockA".
Definition sB : jsstring := lit "sockB".
Definition roomR : jsstring := lit "room-R".
Definition roomQ : jsstring := lit "room-Q".

Definition connected : State :=
  run init [(0%Z, Connect sA); (1%Z, Connect sB)].

Definition joinedA : State :=
  run connected [(2%Z, JoinRoom sA roomR (VStr (lit "Ann")) (VStr (lit "p1")))].

Definition joinedAB : State :=
  run joinedA [(3%Z, JoinRoom sB roomR (VStr (lit "Bob")) (VStr (lit "p2")))].

Definition sC : jsstring := lit "sockC".

(** A, in room R, joins room Q as well. *)
Definition roamed : State :=
  run joinedA [(3%Z, JoinRoom sA roomQ (VStr (lit "Ann")) (VStr (lit "p1")))].

(** A and B in room R; A leaves, C connects and joins. *)
Definition orphaned : State :=
  run joinedAB [(4%Z, Disconnect sA); (5%Z, Connect sC);
                (6%Z, JoinRoom sC roomR (VStr (lit "Cy")) (VStr (lit "p3")))].

(** A, then B, join the room whose id is the empty string. *)
Definition inEmpty : State :=
  run connected [(2%Z, JoinRoom sA [] (VStr (lit "Ann")) (VStr (lit "p1")));
                 (3%Z, JoinRoom sB [] (VStr (lit "Bob")) (VStr (lit "p2")))].

Definition ann : Participant := newParticipant sA (lit "Ann") (VStr (lit "p1")).
Definition bob : Participant := newParticipant sB (lit "Bob") (VStr (lit "p2")).

(** Room R as it stands in [joinedAB]. *)
Definition roomAB : Room := mkRoom roomR sA [(sA, ann); (sB, bob)] 2.

(** A page with no link yet and the [peerDisconnected] callback set. *)
Definition fresh : WebRTC.Manager := WebRTC.mkManager ∅ ∅ true.

(** The page after it opened a link to B as initiator. *)
Definition linked : WebRTC.Manager :=
  fst (WebRTC.createPeerConnection fresh sB true).

(** Sample windows: silence, and a square wave of amplitude 100. *)
Definition quiet : list N := repeat 128 2048.
Definition loud : list N := List.concat (repeat [28; 228] 1024).

End Scenario.

(** ** Facts on insertion-ordered maps *)

Module OMapFacts.
Import OMap.
Section Facts.
Context {V : Type}.
Implicit Types (m : list (jsstring * V)) (v : V) (k : jsstring).

Lemma get_set_eq k v m : get k (set k v m) = Some v.
Proof.
  induction m as [|[k' v'] m IH]; simpl.
  - rewrite decide_True; auto.
  - destruct (decide (k' = k)); simpl.
    + rewrite decide_True; auto.
    + rewrite decide_False; auto.
Qed.

Lemma get_set_ne k k' v m : k <> k' -> get k' (set k v m) = get k' m.
Proof.
  intros Hne. induction m as [|[k0 v0] m IH]; simpl.
  - rewrite decide_False; auto.
  - destruct (decide (k0 = k)) as [->|]; simpl.
    + rewrite !decide_False; auto.
    + destruct (decide (k0 = k')); auto.
Qed.

Lemma get_delete_eq k m : get k (delete k m) = None.
Proof.
  induction m as [|[k' v'] m IH]; simpl; auto.
  destruct (bool_decide_reflect (k' = k)); simpl; auto.
  rewrite decide_False; auto.
Qed.

Lemma get_delete_ne k k' m : k <> k' -> get k' (delete k m) = get k' m.
Proof.
  intros Hne. induction m as [|[k0 v0] m IH]; simpl; auto.
  destruct (bool_decide_reflect (k0 = k)) as [->|]; simpl.
  - rewrite decide_False; auto.
  - destruct (decide (k0 = k')); auto.
Qed.

Lemma set_size_pos k v m : (0 < size (set k v m))%nat.
Proof.
  destruct m as [|[k' v'] m]; simpl; [lia|].
  destruct (decide (k' = k)); simpl; lia.
Qed.

Lemma get_Some_size_pos k v m : get k m = Some v -> (0 < size m)%nat.
Proof. destruct m; simpl; [discriminate|lia]. Qed.

End Facts.
End OMapFacts.

(** ** Properties of the sanitization policy *)

Module SanitizeFacts.
Import RoomManager.

Lemma Anonymous_chars : Forall (fun c => username_char c = true) Anonymous.
Proof. unfold Anonymous; simpl; repeat constructor. Qed.

Lemma cleanUsername_length s : (length (cleanUsername s) <= 50)%nat.
Proof.
  unfold cleanUsername, slice0.
  etransitivity; [apply filter_length_le|].
  rewrite length_firstn. apply Nat.le_min_l.
Qed.

Lemma cleanUsername_chars s :
  Forall (fun c => username_char c = true) (cleanUsername s).
Proof.
  unfold cleanUsername. apply List.Forall_forall.
  intros c Hc. apply List.filter_In in Hc. tauto.
Qed.

Lemma sanitizeUsername_cases v :
  sanitizeUsername v = Anonymous
  \/ exists s, v = VStr s /\ sanitizeUsername v = cleanUsername s.
Proof.
  unfold sanitizeUsername.
  destruct v as [| |b|x|s|r]; simpl; auto.
  - destruct (negb b); auto.
  - destruct (negb _); auto.
  - destruct s as [|c s]; simpl; auto.
    destruct (cleanUsername (c :: s)) eqn:E; simpl; auto.
    right. exists (c :: s). auto.
Qed.

(** C5. For every input value [sanitizeUsername] (a total function: no
    exception) returns at most 50 code units, each a letter, a digit,
    whitespace, a hyphen, an underscore or a period; and an input that is not a
    string (absent included) or that is empty once sanitized gives exactly
    ["Anonymous"]. *)
Theorem sanitizeUsername_spec (v : value) :
  (length (sanitizeUsername v) <= 50)%nat
  /\ Forall (fun c => username_char c = true) (sanitizeUsername v)
  /\ (is_string v = false \/ sanitized v = [] ->
      sanitizeUsername v = lit "Anonymous").
Proof.
  split; [|split].
  - destruct (sanitizeUsername_cases v) as [->|(s & _ & ->)].
    + unfold Anonymous; simpl; lia.
    + apply cleanUsername_length.
  - destruct (sanitizeUsername_cases v) as [->|(s & _ & ->)].
    + apply Anonymous_chars.
    + apply cleanUsername_chars.
  - intros [Hs|He].
    + destruct v; try discriminate Hs; try reflexivity.
      * unfold sanitizeUsername; simpl. destruct (negb b); reflexivity.
      * unfold sanitizeUsername; simpl. destruct (negb _); reflexivity.
    + destruct v as [| |b|x|s|r]; try reflexivity.
      * unfold sanitizeUsername; simpl. destruct (negb b); reflexivity.
      * unfold sanitizeUsername; simpl. destruct (negb _); reflexivity.
      * simpl in He. unfold sanitizeUsername; simpl.
        destruct s; [reflexivity|]. simpl. rewrite He. reflexivity.
Qed.

(** The fallback at an input made of forbidden characters only. *)
Lemma sanitizeUsername_spec_witness :
  sanitizeUsername (VStr (lit "<!>")) = lit "Anonymous".
Proof.
  apply (sanitizeUsername_spec (VStr (lit "<!>"))).
  right. vm_compute. reflexivity.
Defined.

End SanitizeFacts.

(** ** Facts on rooms and on the relay *)

Module ServerFacts.
Import RoomManager Server OMapFacts.

Lemma isEmpty_false r : isEmpty r = false <-> (0 < OMap.size (participants r))%nat.
Proof. unfold isEmpty. rewrite Nat.eqb_neq. lia. Qed.

Lemma getParticipant_nonempty r sid :
  is_Some (getParticipant r sid) -> isEmpty r = false.
Proof.
  intros [p Hp]. apply isEmpty_false. eapply get_Some_size_pos, Hp.
Qed.

Lemma addParticipant_nonempty r sid u p : isEmpty (addParticipant r sid u p) = false.
Proof. apply isEmpty_false. simpl. apply set_size_pos. Qed.

Lemma getParticipant_add_eq r sid u p :
  getParticipant (addParticipant r sid u p) sid = Some (newParticipant sid u p).
Proof. unfold getParticipant; simpl. apply get_set_eq. Qed.

Lemma getParticipant_add_ne r sid t u p :
  sid <> t -> getParticipant (addParticipant r sid u p) t = getParticipant r t.
Proof. intros. unfold getParticipant; simpl. by apply get_set_ne. Qed.

Lemma getParticipant_remove_eq r sid :
  getParticipant (removeParticipant r sid) sid = None.
Proof. unfold getParticipant; simpl. apply get_delete_eq. Qed.

Lemma getParticipant_remove_ne r sid t :
  sid <> t -> getParticipant (removeParticipant r sid) t = getParticipant r t.
Proof. intros. unfold getParticipant; simpl. by apply get_delete_ne. Qed.

Lemma isCreator_true r sid : isCreator r sid = true <-> creator r = sid.
Proof. unfold isCreator. apply bool_decide_eq_true. Qed.

Lemma joinedRoom_Some sess rid :
  joinedRoom sess = Some rid -> currentRoomId sess = Some rid.
Proof.
  unfold joinedRoom. destruct (currentRoomId sess) as [r|]; [|discriminate].
  destruct (truthy_str r); [|discriminate]. congruence.
Qed.

Lemma Inv_init : Inv init.
Proof. split; intros *; simpl; rewrite lookup_empty; discriminate. Qed.

Lemma Inv_connection st sid : Inv st -> Inv (fst (on_connection st sid)).
Proof.
  intros [Hn Hc]. unfold on_connection.
  destruct (sockets st !! sid) eqn:E; simpl; split; simpl; eauto.
  intros rid room sess Hr Hs Hcur.
  destruct (decide (creator room = sid)) as [Heq|Hne].
  - rewrite Heq, lookup_insert_eq in Hs. by simplify_eq.
  - rewrite lookup_insert_ne in Hs by congruence. eauto.
Qed.

Lemma Inv_join_room now st sid sess rid u p :
  Inv st -> sockets st !! sid = Some sess ->
  Inv (fst (on_join_room now st sid sess rid u p)).
Proof.
  intros [Hn Hc] Hsid. unfold on_join_room, getOrCreateRoom.
  destruct (rooms st !! rid) as [room|] eqn:E; simpl; split; simpl.
  - intros rid' room' Hr.
    destruct (decide (rid = rid')) as [<-|Hne].
    + rewrite lookup_insert_eq in Hr. simplify_eq. apply addParticipant_nonempty.
    + rewrite lookup_insert_ne in Hr by done. eauto.
  - intros rid' room' sess' Hr Hs Hcur.
    destruct (decide (rid = rid')) as [<-|Hne].
    + rewrite lookup_insert_eq in Hr. simplify_eq. simpl in *.
      destruct (decide (sid = creator room)) as [->|Hne'].
      * rewrite getParticipant_add_eq. eauto.
      * rewrite lookup_insert_ne in Hs by done.
        rewrite getParticipant_add_ne by done. eauto.
    + rewrite lookup_insert_ne in Hr by done.
      destruct (decide (sid = creator room')) as [->|Hne'].
      * rewrite lookup_insert_eq in Hs. simplify_eq. simpl in *. congruence.
      * rewrite lookup_insert_ne in Hs by done. eauto.
  - intros rid' room' Hr.
    destruct (decide (rid = rid')) as [<-|Hne].
    + rewrite lookup_insert_eq in Hr. simplify_eq. apply addParticipant_nonempty.
    + rewrite !lookup_insert_ne in Hr by done. eauto.
  - intros rid' room' sess' Hr Hs Hcur.
    destruct (decide (rid = rid')) as [<-|Hne].
    + rewrite lookup_insert_eq in Hr. simplify_eq. simpl in *.
      rewrite getParticipant_add_eq. eauto.
    + rewrite !lookup_insert_ne in Hr by done.
      destruct (decide (sid = creator room')) as [->|Hne'].
      * rewrite lookup_insert_eq in Hs. simplify_eq. simpl in *. congruence.
      * rewrite lookup_insert_ne in Hs by done. eauto.
Qed.

Lemma Inv_toggle_mute st sid sess m :
  Inv st -> Inv (fst (on_toggle_mute st sid sess m)).
Proof.
  intros Hinv. unfold on_toggle_mute, getRoom.
  destruct (joinedRoom sess) as [rid|]; [|done].
  destruct (rooms st !! rid) as [room|] eqn:E; [|done].
  destruct (getParticipant room sid) as [p|] eqn:Ep; [|done].
  destruct Hinv as [Hn Hc]. simpl; split; simpl.
  - intros rid' room' Hr.
    destruct (decide (rid = rid')) as [<-|Hne].
    + rewrite lookup_insert_eq in Hr. simplify_eq.
      apply isEmpty_false. simpl. apply set_size_pos.
    + rewrite lookup_insert_ne in Hr by done. eauto.
  - intros rid' room' sess' Hr Hs Hcur.
    destruct (decide (rid = rid')) as [<-|Hne].
    + rewrite lookup_insert_eq in Hr. simplify_eq. simpl in *.
      unfold getParticipant; simpl.
      destruct (decide (sid = creator room)) as [->|Hne'].
      * rewrite get_set_eq. eauto.
      * rewrite get_set_ne by done. eapply Hc; eauto.
    + rewrite lookup_insert_ne in Hr by done. eauto.
Qed.

Lemma Inv_kick_user st sid sess t :
  Inv st -> sockets st !! sid = Some sess ->
  Inv (fst (on_kick_user st sid sess t)).
Proof.
  intros Hinv Hsid. unfold on_kick_user, getRoom.
  destruct (joinedRoom sess) as [rid|] eqn:Ej; [|done].
  destruct (rooms st !! rid) as [room|] eqn:E; [|done].
  destruct (isCreator room sid) eqn:Ecr; simpl; [|done].
  destruct (bool_decide_reflect (t = sid)) as [->|Hts]; [done|].
  apply isCreator_true in Ecr. apply joinedRoom_Some in Ej.
  destruct Hinv as [Hn Hc].
  assert (Hin : is_Some (getParticipant room sid)).
  { rewrite <- Ecr. eapply Hc; eauto. by rewrite Ecr. }
  assert (Hsess : forall c s', alter (leave rid) t (sockets st) !! c = Some s' ->
            exists s0, sockets st !! c = Some s0 /\ currentRoomId s0 = currentRoomId s').
  { intros c s'. rewrite lookup_alter. case_decide.
    - subst c. destruct (sockets st !! t) as [s0|]; simpl; [|discriminate].
      intros [= <-]. eauto.
    - eauto. }
  simpl; split; simpl.
  - intros rid' room' Hr.
    destruct (decide (rid = rid')) as [<-|Hne].
    + rewrite lookup_insert_eq in Hr. simplify_eq.
      apply (getParticipant_nonempty _ (creator room)).
      rewrite getParticipant_remove_ne by done. done.
    + rewrite lookup_insert_ne in Hr by done. eauto.
  - intros rid' room' sess' Hr Hs Hcur.
    apply Hsess in Hs as (s0 & Hs0 & Hcur0).
    destruct (decide (rid = rid')) as [<-|Hne].
    + rewrite lookup_insert_eq in Hr. simplify_eq. simpl in *.
      rewrite getParticipant_remove_ne by done. done.
    + rewrite lookup_insert_ne in Hr by done.
      eapply Hc; eauto. congruence.
Qed.

Lemma Inv_disconnect st sid sess :
  Inv st -> Inv (fst (on_disconnect st sid sess)).
Proof.
  intros [Hn Hc]. unfold on_disconnect, getRoom, removeRoom.
  assert (Hsess : forall c s', base.delete sid (sockets st) !! c = Some s' ->
            c <> sid /\ sockets st !! c = Some s').
  { intros c s'. rewrite lookup_delete. case_decide; [done|]. by split. }
  destruct (joinedRoom sess) as [rid|] eqn:Ej.
  2:{ split; simpl; eauto. intros * Hr Hs. apply Hsess in Hs as [_ Hs]. eauto. }
  destruct (rooms st !! rid) as [room|] eqn:E.
  2:{ split; simpl; eauto. intros * Hr Hs. apply Hsess in Hs as [_ Hs]. eauto. }
  simpl; split; simpl.
  - intros rid' room' Hr.
    destruct (isEmpty (removeParticipant room sid)) eqn:Ee.
    + destruct (decide (rid = rid')) as [<-|Hne].
      * by rewrite lookup_delete_eq in Hr.
      * rewrite lookup_delete_ne, lookup_insert_ne in Hr by done. eauto.
    + destruct (decide (rid = rid')) as [<-|Hne].
      * rewrite lookup_insert_eq in Hr. by simplify_eq.
      * rewrite lookup_insert_ne in Hr by done. eauto.
  - intros rid' room' sess' Hr Hs Hcur.
    apply Hsess in Hs as [Hne' Hs].
    assert (Hr' : (rid = rid' /\ room' = removeParticipant room sid)
                  \/ (rid <> rid' /\ rooms st !! rid' = Some room')).
    { destruct (isEmpty (removeParticipant room sid));
        destruct (decide (rid = rid')) as [<-|Hne].
      - by rewrite lookup_delete_eq in Hr.
      - rewrite lookup_delete_ne, lookup_insert_ne in Hr by done. auto.
      - rewrite lookup_insert_eq in Hr. left. by simplify_eq.
      - rewrite lookup_insert_ne in Hr by done. auto. }
    destruct Hr' as [[<- ->]|[Hne Hr']]; simpl in *.
    + rewrite getParticipant_remove_ne by done. eauto.
    + eauto.
Qed.

Lemma Inv_handle now st ev : Inv st -> Inv (fst (handle now st ev)).
Proof.
  intros Hinv. destruct ev; simpl; try apply Inv_connection; try done;
    match goal with |- context [sockets st !! ?s] =>
      destruct (sockets st !! s) as [sess|] eqn:Es; [|done] end;
    try done.
  - by apply Inv_join_room.
  - unfold on_send_message. destruct (joinedRoom sess); [|done].
    destruct (negb _); done.
  - by apply Inv_toggle_mute.
  - by apply Inv_kick_user.
  - by apply Inv_disconnect.
Qed.

Lemma Inv_run evs : forall st, Inv st -> Inv (run st evs).
Proof.
  induction evs as [|[now ev] evs IH]; intros st Hinv; simpl; [done|].
  apply IH, Inv_handle, Hinv.
Qed.

Lemma Inv_reachable st : reachable st -> Inv st.
Proof. intros [evs ->]. apply Inv_run, Inv_init. Qed.

Lemma removeParticipant_empty r sid :
  isEmpty (removeParticipant r sid) = true
  <-> forall t, In t (List.map fst (participants r)) -> t = sid.
Proof.
  unfold isEmpty, removeParticipant, OMap.size, OMap.delete; simpl.
  rewrite Nat.eqb_eq. induction (participants r) as [|[k v] m IH]; simpl.
  - split; [intros _ t []|done].
  - destruct (bool_decide_reflect (k = sid)) as [->|Hne]; simpl.
    + rewrite IH. split; [intros H t [<-|Ht]; auto|intros H t Ht; auto].
    + split; [discriminate|]. intros H. destruct Hne. apply H. auto.
Qed.

(** A registered room leaves the registry only in the disconnect handler of a
    session bound to it, when removing that session empties it. *)
Lemma handle_unregisters now st ev rid room :
  rooms st !! rid = Some room ->
  rooms (fst (handle now st ev)) !! rid = None <->
  exists sid sess,
    ev = Disconnect sid /\ sockets st !! sid = Some sess
    /\ joinedRoom sess = Some rid
    /\ isEmpty (removeParticipant room sid) = true.
Proof.
  intros Hr. split.
  - destruct ev; simpl;
      [unfold on_connection; destruct (sockets st !! sid); simpl; congruence|..];
      (match goal with |- context [sockets st !! ?s] =>
         destruct (sockets st !! s) as [sess|] eqn:Es; [|simpl; congruence] end);
      try (simpl; congruence).
    + unfold on_join_room, getOrCreateRoom.
      destruct (rooms st !! roomId) eqn:E; simpl;
        (destruct (decide (roomId = rid)) as [->|Hne];
         [rewrite lookup_insert_eq; discriminate
         |rewrite !lookup_insert_ne by done; congruence]).
    + unfold on_send_message. destruct (joinedRoom sess); [|simpl; congruence].
      destruct (negb _); simpl; congruence.
    + unfold on_toggle_mute, getRoom.
      destruct (joinedRoom sess) as [r|]; [|simpl; congruence].
      destruct (rooms st !! r) as [room0|] eqn:E; [|simpl; congruence].
      destruct (getParticipant room0 sid); simpl; [|congruence].
      destruct (decide (r = rid)) as [->|Hne];
        [rewrite lookup_insert_eq; discriminate
        |rewrite lookup_insert_ne by done; congruence].
    + unfold on_kick_user, getRoom.
      destruct (joinedRoom sess) as [r|]; [|simpl; congruence].
      destruct (rooms st !! r) as [room0|] eqn:E; [|simpl; congruence].
      destruct (negb _); [simpl; congruence|].
      destruct (bool_decide _); simpl; [congruence|].
      destruct (decide (r = rid)) as [->|Hne];
        [rewrite lookup_insert_eq; discriminate
        |rewrite lookup_insert_ne by done; congruence].
    + unfold on_disconnect, getRoom, removeRoom.
      destruct (joinedRoom sess) as [r|] eqn:Ej; [|simpl; congruence].
      destruct (rooms st !! r) as [room0|] eqn:E; [|simpl; congruence].
      simpl. destruct (isEmpty (removeParticipant room0 sid)) eqn:Ee.
      * destruct (decide (r = rid)) as [->|Hne].
        -- intros _. exists sid, sess. simplify_eq. auto.
        -- rewrite lookup_delete_ne, lookup_insert_ne by done. congruence.
      * destruct (decide (r = rid)) as [->|Hne];
          [rewrite lookup_insert_eq; discriminate
          |rewrite lookup_insert_ne by done; congruence].
  - intros (sid & sess & -> & Hs & Hj & He). simpl. rewrite Hs.
    unfold on_disconnect, getRoom, removeRoom. rewrite Hj, Hr, He. simpl.
    apply lookup_delete_eq.
Qed.

(** C1. In every reachable state of the registry a room is registered if and
    only if it has at least one participant; and a registered room leaves the
    registry at a step exactly when that step removes its last participant
    (the disconnect of the one session left in it): no join, kick or
    disconnect leaves an empty room behind. *)
Theorem room_registered_iff_occupied (evs : list (Z * Event)) :
  let st := run init evs in
  (forall rid, is_Some (rooms st !! rid) <-> members st rid <> [])
  /\ (forall now ev rid,
        is_Some (rooms st !! rid) ->
        rooms (fst (handle now st ev)) !! rid = None <->
        exists sid sess,
          ev = Disconnect sid /\ sockets st !! sid = Some sess
          /\ joinedRoom sess = Some rid
          /\ forall t, In t (members st rid) -> t = sid).
Proof.
  intros st.
  assert (Hinv : Inv st) by (apply Inv_run, Inv_init).
  split.
  - intros rid. unfold members. split.
    + intros [room Hr]. rewrite Hr.
      apply (inv_nonempty _ Hinv), isEmpty_false in Hr.
      unfold OMap.size in Hr. destruct (participants room); simpl in *; [lia|done].
    + destruct (rooms st !! rid); [eauto|done].
  - intros now ev rid [room Hr].
    rewrite (handle_unregisters now st ev rid room Hr).
    unfold members. rewrite Hr.
    split; intros (sid & sess & ? & ? & ? & He); exists sid, sess;
      repeat split; auto; by apply removeParticipant_empty.
Qed.

(** A alone in room R: the room is registered, and A's disconnect removes it. *)
Lemma room_registered_iff_occupied_witness :
  is_Some (rooms Scenario.joinedA !! Scenario.roomR)
  /\ rooms (fst (handle 9 Scenario.joinedA (Disconnect Scenario.sA)))
       !! Scenario.roomR = None.
Proof.
  destruct (room_registered_iff_occupied
              [(0%Z, Connect Scenario.sA); (1%Z, Connect Scenario.sB);
               (2%Z, JoinRoom Scenario.sA Scenario.roomR (VStr (lit "Ann"))
                       (VStr (lit "p1")))])
    as [Hocc Hrem].
  split.
  - apply Hocc. vm_compute. discriminate.
  - apply Hrem.
    + apply Hocc. vm_compute. discriminate.
    + exists Scenario.sA,
        (mkSession (Some Scenario.roomR) (Some (lit "Ann"))
           ({[Scenario.roomR]} ∪ {[Scenario.sA]})).
      split; [reflexivity|]. split; [vm_compute; reflexivity|].
      split; [vm_compute; reflexivity|].
      intros t Ht. vm_compute in Ht. destruct Ht as [<-|[]]. reflexivity.
Defined.

(** C4 as stated fails: B, connected but never joined, asks to kick A from
    room R, which A created, and gets no reply; and in the room whose id is the
    empty string neither B's request to kick A nor A's request to kick itself
    gets one. *)
Lemma kick_without_reply :
  ~ kick_refused_with_error 3 Scenario.joinedA Scenario.sB Scenario.sA
      Scenario.roomR
  /\ ~ kick_refused_with_error 4 Scenario.inEmpty Scenario.sB Scenario.sA []
  /\ ~ kick_refused_with_error 4 Scenario.inEmpty Scenario.sA Scenario.sA [].
Proof.
  split; [|split].
  - intros H.
    destruct (H (mkRoom Scenario.roomR Scenario.sA
                   [(Scenario.sA, Scenario.ann)] 2)) as [[msg Hmsg] _].
    + vm_compute. reflexivity.
    + vm_compute. eauto.
    + left. vm_compute. discriminate.
    + vm_compute in Hmsg. discriminate Hmsg.
  - intros H.
    destruct (H (mkRoom [] Scenario.sA
                   [(Scenario.sA, Scenario.ann); (Scenario.sB, Scenario.bob)] 2))
      as [[msg Hmsg] _].
    + vm_compute. reflexivity.
    + vm_compute. eauto.
    + left. vm_compute. discriminate.
    + vm_compute in Hmsg. discriminate Hmsg.
  - intros H.
    destruct (H (mkRoom [] Scenario.sA
                   [(Scenario.sA, Scenario.ann); (Scenario.sB, Scenario.bob)] 2))
      as [[msg Hmsg] _].
    + vm_compute. reflexivity.
    + vm_compute. eauto.
    + right. reflexivity.
    + vm_compute in Hmsg. discriminate Hmsg.
Qed.

(** C4, amended. A kick request by a session that is not a room's creator, or
    that targets the requester itself, leaves that room as it was, its
    participant set and every participant's fields, whoever the requester is.
    When the requester's session is bound to that room (its [currentRoomId] is
    the room's id and passes the handler's first guard) the request is
    answered by an error sent to the requester alone, the whole state
    (registry, rooms, sessions) staying as it was.  When the requester never
    joined ([currentRoomId] is [null]) the request is dropped at that guard:
    nothing is emitted and nothing changes. *)
Theorem kick_rejected_unchanged (now : Z) (st : State) (sid t rid : jsstring)
    (room : Room) :
  rooms st !! rid = Some room ->
  creator room <> sid \/ t = sid ->
  rooms (fst (handle now st (KickUser sid t))) !! rid = Some room
  /\ (forall sess,
        sockets st !! sid = Some sess ->
        joinedRoom sess = Some rid ->
        exists msg,
          handle now st (KickUser sid t) = (st, [SocketEmit sid (Error msg)]))
  /\ (forall sess,
        sockets st !! sid = Some sess ->
        currentRoomId sess = None ->
        handle now st (KickUser sid t) = (st, [])).
Proof.
  intros Hr Hc. split; [|split].
  - simpl. destruct (sockets st !! sid) as [sess|]; [|done].
    unfold on_kick_user, getRoom.
    destruct (joinedRoom sess) as [rid0|]; [|done].
    destruct (rooms st !! rid0) as [room0|] eqn:E0; [|done].
    destruct (isCreator room0 sid) eqn:Ecr; simpl; [|done].
    destruct (bool_decide_reflect (t = sid)) as [->|Hts]; [done|].
    destruct Hc as [Hc|Hc]; [|done].
    apply isCreator_true in Ecr. simpl.
    rewrite lookup_insert_ne; [done|]. intros ->. congruence.
  - intros sess Hs Hj. simpl. rewrite Hs.
    unfold on_kick_user, getRoom. rewrite Hj, Hr.
    destruct (isCreator room sid) eqn:Ecr; simpl; [|eauto].
    apply isCreator_true in Ecr. destruct Hc as [Hc| ->]; [done|].
    rewrite bool_decide_eq_true_2 by done. eauto.
  - intros sess Hs Hcur. simpl. rewrite Hs.
    unfold on_kick_user, joinedRoom. by rewrite Hcur.
Qed.

(** B, who did not create room R, asks to kick A: from inside the room it is
    answered by an error, before it joined it is not answered. *)
Lemma kick_rejected_unchanged_witness :
  (exists msg,
     handle 4 Scenario.joinedAB (KickUser Scenario.sB Scenario.sA)
     = (Scenario.joinedAB, [SocketEmit Scenario.sB (Error msg)]))
  /\ handle 3 Scenario.joinedA (KickUser Scenario.sB Scenario.sA)
     = (Scenario.joinedA, []).
Proof.
  split.
  - edestruct (kick_rejected_unchanged 4 Scenario.joinedAB Scenario.sB
                 Scenario.sA Scenario.roomR) as (_ & Herr & _).
    + vm_compute. reflexivity.
    + left. vm_compute. discriminate.
    + eapply Herr.
      * vm_compute. reflexivity.
      * vm_compute. reflexivity.
  - edestruct (kick_rejected_unchanged 3 Scenario.joinedA Scenario.sB
                 Scenario.sA Scenario.roomR) as (_ & _ & Hsilent).
    + vm_compute. reflexivity.
    + left. vm_compute. discriminate.
    + eapply Hsilent.
      * vm_compute. reflexivity.
      * reflexivity.
Defined.

(** The creator of a room is never reassigned while the room is registered. *)
Lemma creator_stable now st ev rid r r' :
  rooms st !! rid = Some r ->
  rooms (fst (handle now st ev)) !! rid = Some r' ->
  creator r' = creator r.
Proof.
  intros Hr.
  destruct ev; simpl;
    [unfold on_connection; destruct (sockets st !! sid); simpl; congruence|..];
    (match goal with |- context [sockets st !! ?s] =>
       destruct (sockets st !! s) as [sess|] eqn:Es; [|simpl; congruence] end);
    try (simpl; congruence).
  - unfold on_join_room, getOrCreateRoom.
    destruct (rooms st !! roomId) eqn:E; simpl;
      (destruct (decide (roomId = rid)) as [->|Hne];
       [rewrite lookup_insert_eq; intros; simplify_eq; done
       |rewrite !lookup_insert_ne by done; congruence]).
  - unfold on_send_message. destruct (joinedRoom sess); [|simpl; congruence].
    destruct (negb _); simpl; congruence.
  - unfold on_toggle_mute, getRoom.
    destruct (joinedRoom sess) as [r0|]; [|simpl; congruence].
    destruct (rooms st !! r0) as [room0|] eqn:E; [|simpl; congruence].
    destruct (getParticipant room0 sid); simpl; [|congruence].
    destruct (decide (r0 = rid)) as [->|Hne];
      [rewrite lookup_insert_eq; intros; simplify_eq; done
      |rewrite lookup_insert_ne by done; congruence].
  - unfold on_kick_user, getRoom.
    destruct (joinedRoom sess) as [r0|]; [|simpl; congruence].
    destruct (rooms st !! r0) as [room0|] eqn:E; [|simpl; congruence].
    destruct (negb _); [simpl; congruence|].
    destruct (bool_decide _); simpl; [congruence|].
    destruct (decide (r0 = rid)) as [->|Hne];
      [rewrite lookup_insert_eq; intros; simplify_eq; done
      |rewrite lookup_insert_ne by done; congruence].
  - unfold on_disconnect, getRoom, removeRoom.
    destruct (joinedRoom sess) as [r0|] eqn:Ej; [|simpl; congruence].
    destruct (rooms st !! r0) as [room0|] eqn:E; [|simpl; congruence].
    simpl. destruct (isEmpty (removeParticipant room0 sid)) eqn:Ee;
      (destruct (decide (r0 = rid)) as [->|Hne];
       [rewrite ?lookup_delete_eq, ?lookup_insert_eq; intros; simplify_eq; done
       |rewrite ?lookup_delete_ne, ?lookup_insert_ne by done; congruence]).
Qed.

Lemma creator_along rid evs : forall st r,
  registered_along rid st evs ->
  rooms st !! rid = Some r ->
  exists r', rooms (run st evs) !! rid = Some r' /\ creator r' = creator r.
Proof.
  induction evs as [|[now ev] evs IH]; intros st r Hal Hr; simpl in *.
  - eauto.
  - destruct Hal as [_ Hal].
    pose proof Hal as Hal'. destruct evs as [|[now' ev'] evs'];
      destruct Hal' as [[r1 Hr1] _];
      destruct (IH _ r1 Hal Hr1) as (r' & Hr' & Hc');
      exists r'; (split; [done|]);
      rewrite Hc'; eapply creator_stable; eauto.
Qed.

Lemma join_room_confirmation now st sid sess rid u p room :
  sockets st !! sid = Some sess ->
  rooms st !! rid = Some room ->
  exists others,
    snd (handle now st (JoinRoom sid rid u p))
    = [SocketEmit sid (RoomJoined others (bool_decide (creator room = sid)));
       SocketTo sid rid (UserJoined sid (sanitizeUsername u) p)].
Proof.
  intros Hs Hr. simpl. rewrite Hs. unfold on_join_room, getOrCreateRoom.
  rewrite Hr. simpl. eauto.
Qed.

(** C7. The first session to join a room identifier that is not registered
    becomes the room's creator and its confirmation says so; every later
    joiner of that room, for as long as the room stays registered, is told
    that it is not the creator. *)
Theorem first_joiner_is_creator (now : Z) (st : State) (sid rid : jsstring)
    (sess : Session) (u p : value) :
  sockets st !! sid = Some sess ->
  rooms st !! rid = None ->
  let st1 := fst (handle now st (JoinRoom sid rid u p)) in
  snd (handle now st (JoinRoom sid rid u p))
  = [SocketEmit sid (RoomJoined [] true);
     SocketTo sid rid (UserJoined sid (sanitizeUsername u) p)]
  /\ (exists room, rooms st1 !! rid = Some room /\ creator room = sid)
  /\ forall evs now' sid' sess' u' p',
       registered_along rid st1 evs ->
       sockets (run st1 evs) !! sid' = Some sess' ->
       sid' <> sid ->
       exists others,
         snd (handle now' (run st1 evs) (JoinRoom sid' rid u' p'))
         = [SocketEmit sid' (RoomJoined others false);
            SocketTo sid' rid (UserJoined sid' (sanitizeUsername u') p')].
Proof.
  intros Hs Hr st1.
  assert (Hst1 : exists room, rooms st1 !! rid = Some room /\ creator room = sid).
  { subst st1. simpl. rewrite Hs. unfold on_join_room, getOrCreateRoom.
    rewrite Hr. simpl. rewrite lookup_insert_eq. eauto. }
  split; [|split; [done|]].
  - simpl. rewrite Hs. unfold on_join_room, getOrCreateRoom. rewrite Hr. simpl.
    unfold isCreator; simpl. rewrite bool_decide_eq_true_2 by done. done.
  - intros evs now' sid' sess' u' p' Hal Hs' Hne.
    destruct Hst1 as (room & Hroom & Hcr).
    destruct (creator_along rid evs st1 room Hal Hroom) as (r' & Hr' & Hc').
    destruct (join_room_confirmation now' _ sid' sess' rid u' p' r' Hs' Hr')
      as [others ->].
    exists others. rewrite bool_decide_eq_false_2; [done|congruence].
Qed.

(** A creates room R; B, joining next, is not its creator. *)
Lemma first_joiner_is_creator_witness :
  snd (handle 2 Scenario.connected
         (JoinRoom Scenario.sA Scenario.roomR (VStr (lit "Ann")) (VStr (lit "p1"))))
  = [SocketEmit Scenario.sA (RoomJoined [] true);
     SocketTo Scenario.sA Scenario.roomR
       (UserJoined Scenario.sA (sanitizeUsername (VStr (lit "Ann")))
          (VStr (lit "p1")))]
  /\ exists others,
       snd (handle 3 Scenario.joinedA
              (JoinRoom Scenario.sB Scenario.roomR (VStr (lit "Bob"))
                 (VStr (lit "p2"))))
       = [SocketEmit Scenario.sB (RoomJoined others false);
          SocketTo Scenario.sB Scenario.roomR
            (UserJoined Scenario.sB (sanitizeUsername (VStr (lit "Bob")))
               (VStr (lit "p2")))].
Proof.
  destruct (first_joiner_is_creator 2 Scenario.connected Scenario.sA
              Scenario.roomR (mkSession None None {[Scenario.sA]})
              (VStr (lit "Ann")) (VStr (lit "p1")))
    as (Hfirst & _ & Hlater).
  - vm_compute. reflexivity.
  - vm_compute. reflexivity.
  - split; [exact Hfirst|].
    apply (Hlater [] 3%Z Scenario.sB
             (mkSession None None {[Scenario.sB]})
             (VStr (lit "Bob")) (VStr (lit "p2"))).
    + vm_compute. eauto.
    + vm_compute. reflexivity.
    + vm_compute. discriminate.
Defined.

Lemma unbound_handle sid now st ev :
  joins_as sid ev = false -> unbound sid st ->
  unbound sid (fst (handle now st ev)).
Proof.
  unfold unbound. intros Hj Hu.
  destruct ev; simpl;
    [unfold on_connection; destruct (sockets st !! sid0) eqn:E; simpl; auto;
     intros sess; destruct (decide (sid0 = sid)) as [->|Hne];
     [rewrite lookup_insert_eq; intros [= <-]; done
     |rewrite lookup_insert_ne by done; auto]
    |..];
    (match goal with |- context [sockets st !! ?s] =>
       destruct (sockets st !! s) as [sess0|] eqn:Es; [|simpl; auto] end);
    try (simpl; auto; fail).
  - simpl in Hj. apply bool_decide_eq_false in Hj.
    unfold on_join_room. destruct (getOrCreateRoom _ _ _ _); simpl.
    intros sess. rewrite lookup_insert_ne by done. auto.
  - unfold on_send_message. destruct (joinedRoom sess0); [|simpl; auto].
    destruct (negb _); simpl; auto.
  - unfold on_toggle_mute, getRoom.
    destruct (joinedRoom sess0) as [r0|]; [|simpl; auto].
    destruct (rooms st !! r0) as [room0|]; [|simpl; auto].
    destruct (getParticipant room0 sid0); simpl; auto.
  - unfold on_kick_user, getRoom.
    destruct (joinedRoom sess0) as [r0|]; [|simpl; auto].
    destruct (rooms st !! r0) as [room0|]; [|simpl; auto].
    destruct (negb _); [simpl; auto|].
    destruct (bool_decide _); simpl; [auto|].
    intros sess. rewrite lookup_alter. case_decide; [|auto].
    subst. destruct (sockets st !! sid) as [s0|] eqn:E0; simpl; [|done].
    intros [= <-]. simpl. auto.
  - assert (Hd : forall sess, base.delete sid0 (sockets st) !! sid = Some sess ->
                   currentRoomId sess = None).
    { intros sess. rewrite lookup_delete. case_decide; [done|auto]. }
    unfold on_disconnect, getRoom.
    destruct (joinedRoom sess0) as [r0|]; [|simpl; auto].
    destruct (rooms st !! r0) as [room0|]; simpl; auto.
Qed.

Lemma unbound_run sid evs : forall st,
  Forall (fun e => joins_as sid (snd e) = false) evs ->
  unbound sid st -> unbound sid (run st evs).
Proof.
  induction evs as [|[now ev] evs IH]; intros st Hf Hu; simpl; [done|].
  inversion Hf; subst. apply IH; [done|]. by apply unbound_handle.
Qed.

(** C10. When a connection that never sent a join request disconnects, the
    registry and every room in it are unchanged and nothing is emitted. *)
Theorem disconnect_unjoined_noop (evs : list (Z * Event)) (sid : jsstring)
    (now : Z) :
  Forall (fun e => joins_as sid (snd e) = false) evs ->
  rooms (fst (handle now (run init evs) (Disconnect sid))) = rooms (run init evs)
  /\ snd (handle now (run init evs) (Disconnect sid)) = [].
Proof.
  intros Hf.
  assert (Hu : unbound sid (run init evs)).
  { apply unbound_run; [done|]. intros sess. simpl. by rewrite lookup_empty. }
  simpl. destruct (sockets (run init evs) !! sid) as [sess|] eqn:Es; [|done].
  unfold on_disconnect, joinedRoom. rewrite (Hu sess Es). done.
Qed.

(** B connects while A creates room R, and leaves without joining. *)
Lemma disconnect_unjoined_noop_witness :
  rooms (fst (handle 3 Scenario.joinedA (Disconnect Scenario.sB)))
  = rooms Scenario.joinedA
  /\ snd (handle 3 Scenario.joinedA (Disconnect Scenario.sB)) = [].
Proof.
  apply (disconnect_unjoined_noop
           [(0%Z, Connect Scenario.sA); (1%Z, Connect Scenario.sB);
            (2%Z, JoinRoom Scenario.sA Scenario.roomR (VStr (lit "Ann"))
                    (VStr (lit "p1")))]
           Scenario.sB 3).
  repeat constructor.
Defined.

(** C2 as stated fails: A, already joined to room R, asks to join room Q and is
    not rejected. *)
Lemma rejoin_not_rejected :
  joinedRoom (mkSession (Some Scenario.roomR) (Some (lit "Ann"))
                ({[Scenario.roomR]} ∪ {[Scenario.sA]})) = Some Scenario.roomR
  /\ sockets Scenario.joinedA !! Scenario.sA
     = Some (mkSession (Some Scenario.roomR) (Some (lit "Ann"))
               ({[Scenario.roomR]} ∪ {[Scenario.sA]}))
  /\ ~ join_rejected 3 Scenario.joinedA Scenario.sA Scenario.roomQ
         (VStr (lit "Ann")) (VStr (lit "p1")).
Proof.
  split; [vm_compute; reflexivity|]. split; [vm_compute; reflexivity|].
  intros (_ & _ & Hout).
  specialize (Hout (SocketEmit Scenario.sA (RoomJoined [] true))).
  assert (Hin : In (SocketEmit Scenario.sA (RoomJoined [] true))
                  (snd (handle 3 Scenario.joinedA
                          (JoinRoom Scenario.sA Scenario.roomQ
                             (VStr (lit "Ann")) (VStr (lit "p1")))))).
  { vm_compute. left. reflexivity. }
  specialize (Hout Hin). discriminate Hout.
Qed.

(** C2, amended. A join request is carried out whatever the state of the
    session, Joined or not: the requester is added to the requested room under
    its sanitized name, the session context becomes that room and name, the
    confirmation and the announcement are emitted, and every other room, the
    one the session was in included, keeps its entry as it is. *)
Theorem join_always_joins (now : Z) (st : State) (sid rid : jsstring)
    (sess : Session) (u p : value) :
  sockets st !! sid = Some sess ->
  let st' := fst (handle now st (JoinRoom sid rid u p)) in
  (exists room',
     rooms st' !! rid = Some room'
     /\ getParticipant room' sid
        = Some (newParticipant sid (sanitizeUsername u) p))
  /\ sockets st' !! sid
     = Some (mkSession (Some rid) (Some (sanitizeUsername u))
               ({[rid]} ∪ socketRooms sess))
  /\ (exists others cr,
        snd (handle now st (JoinRoom sid rid u p))
        = [SocketEmit sid (RoomJoined others cr);
           SocketTo sid rid (UserJoined sid (sanitizeUsername u) p)])
  /\ forall rid0, rid0 <> rid -> rooms st' !! rid0 = rooms st !! rid0.
Proof.
  intros Hs st'. subst st'. simpl. rewrite Hs.
  unfold on_join_room, getOrCreateRoom.
  destruct (rooms st !! rid) as [room|] eqn:E; simpl;
    rewrite !lookup_insert_eq;
    (split; [eexists; split; [reflexivity|apply getParticipant_add_eq]|]);
    (split; [done|]); (split; [eauto|]);
    intros rid0 Hne; rewrite !lookup_insert_ne by done; done.
Qed.

(** A, in room R, joins room Q: it is now in both. *)
Lemma join_always_joins_witness :
  (exists room',
     rooms (fst (handle 3 Scenario.joinedA
                   (JoinRoom Scenario.sA Scenario.roomQ (VStr (lit "Ann"))
                      (VStr (lit "p1"))))) !! Scenario.roomQ = Some room'
     /\ getParticipant room' Scenario.sA
        = Some (newParticipant Scenario.sA (sanitizeUsername (VStr (lit "Ann")))
                  (VStr (lit "p1"))))
  /\ rooms (fst (handle 3 Scenario.joinedA
                   (JoinRoom Scenario.sA Scenario.roomQ (VStr (lit "Ann"))
                      (VStr (lit "p1"))))) !! Scenario.roomR
     = rooms Scenario.joinedA !! Scenario.roomR.
Proof.
  destruct (join_always_joins 3 Scenario.joinedA Scenario.sA Scenario.roomQ
              (mkSession (Some Scenario.roomR) (Some (lit "Ann"))
                 ({[Scenario.roomR]} ∪ {[Scenario.sA]}))
              (VStr (lit "Ann")) (VStr (lit "p1")))
    as (Hin & _ & _ & Hother).
  - vm_compute. reflexivity.
  - split; [exact Hin|]. apply Hother. vm_compute. discriminate.
Defined.

(** C3 as stated fails: A, connected but joined to no room, sends an offer
    addressed to B, and B receives it. *)
Lemma unjoined_offer_forwarded :
  (exists sess, sockets Scenario.connected !! Scenario.sA = Some sess
                /\ joinedRoom sess = None)
  /\ ~ forwards_nothing 2 Scenario.connected
         (WebrtcOffer Scenario.sA Scenario.sB (VObj 7)).
Proof.
  split.
  - exists (mkSession None None {[Scenario.sA]}).
    split; vm_compute; reflexivity.
  - intros H.
    specialize (H Scenario.sB
                  (SocketTo Scenario.sA Scenario.sB (OfferFrom Scenario.sA (VObj 7)))).
    assert (Hin : In (SocketTo Scenario.sA Scenario.sB
                        (OfferFrom Scenario.sA (VObj 7)))
                    (snd (handle 2 Scenario.connected
                            (WebrtcOffer Scenario.sA Scenario.sB (VObj 7))))).
    { vm_compute. left. reflexivity. }
    specialize (H Hin). vm_compute in H. discriminate H.
Qed.

Lemma receives_SocketTo st t sid to m :
  receives st t (SocketTo sid to m) = true
  <-> t <> sid /\ exists sess, sockets st !! t = Some sess /\ to ∈ socketRooms sess.
Proof.
  unfold receives, inRoom. rewrite andb_true_iff, negb_true_iff.
  rewrite bool_decide_eq_false.
  destruct (sockets st !! t) as [sess|].
  - rewrite bool_decide_eq_true. split.
    + intros [? ?]. eauto.
    + intros [? (s & [= <-] & ?)]. auto.
  - split; [intros [? _]; discriminate|intros [_ (s & ? & _)]; discriminate].
Qed.

(** C3, amended. The relay makes no check of the sender's join state: from
    every live connection, Joined or not, an offer, an answer or an ICE
    candidate is forwarded verbatim, tagged with the sender's identity, to the
    socket.io room named by the target, that is to every connection in that
    room other than the sender; the state is left unchanged. *)
Theorem relay_forwards_in_any_state (now : Z) (st : State) (sid to : jsstring)
    (sess : Session) (payload : value) :
  sockets st !! sid = Some sess ->
  handle now st (WebrtcOffer sid to payload)
  = (st, [SocketTo sid to (OfferFrom sid payload)])
  /\ handle now st (WebrtcAnswer sid to payload)
     = (st, [SocketTo sid to (AnswerFrom sid payload)])
  /\ handle now st (IceCandidate sid to payload)
     = (st, [SocketTo sid to (CandidateFrom sid payload)])
  /\ forall t m,
       receives st t (SocketTo sid to m) = true
       <-> t <> sid
           /\ exists sess', sockets st !! t = Some sess' /\ to ∈ socketRooms sess'.
Proof.
  intros Hs.
  split; [simpl; by rewrite Hs|]. split; [simpl; by rewrite Hs|].
  split; [simpl; by rewrite Hs|].
  intros t m. apply receives_SocketTo.
Qed.

(** A, joined to no room, has its candidate forwarded to B. *)
Lemma relay_forwards_in_any_state_witness :
  handle 2 Scenario.connected (IceCandidate Scenario.sA Scenario.sB (VObj 9))
  = (Scenario.connected,
     [SocketTo Scenario.sA Scenario.sB (CandidateFrom Scenario.sA (VObj 9))])
  /\ receives Scenario.connected Scenario.sB
       (SocketTo Scenario.sA Scenario.sB (CandidateFrom Scenario.sA (VObj 9)))
     = true.
Proof.
  destruct (relay_forwards_in_any_state 2 Scenario.connected Scenario.sA
              Scenario.sB (mkSession None None {[Scenario.sA]}) (VObj 9))
    as (_ & _ & Hice & Hrecv).
  - vm_compute. reflexivity.
  - split; [exact Hice|]. apply Hrecv. split.
    + vm_compute. discriminate.
    + exists (mkSession None None {[Scenario.sB]}).
      split; [vm_compute; reflexivity|]. vm_compute. reflexivity.
Defined.

End ServerFacts.

(** ** Facts on the mesh orchestrator *)

Module ClientFacts.
Import WebRTC.

(** C6 as stated fails: a candidate from B that arrives before B's offer, when
    no link to B exists yet, is not among the data applied to the link that
    the offer creates. *)
Lemma early_candidate_dropped :
  ~ candidate_kept Scenario.fresh Scenario.sB (VObj 1) (VObj 2).
Proof.
  intros (peer & Hp & Hin). vm_compute in Hp.
  injection Hp as <-. simpl in Hin. destruct Hin as [H|[]]. discriminate H.
Qed.

(** C6, amended. A candidate that arrives while a link to its sender exists is
    handed to that link at once, whatever the state of the handshake, after
    everything already handed to it; a candidate that arrives while no link to
    its sender exists is dropped: the manager is unchanged, and the link
    created by a later offer has been handed the offer alone. *)
Theorem candidate_routed_or_dropped (m : Manager) (from : jsstring)
    (candidate : value) :
  (forall peer,
     peers m !! from = Some peer ->
     peers (handleICECandidate m from candidate) !! from
     = Some (mkPeer (initiator peer) (signalled peer ++ [candidate])))
  /\ (peers m !! from = None ->
      handleICECandidate m from candidate = m
      /\ forall offer,
           peers (handleOffer (handleICECandidate m from candidate) from offer)
             !! from
           = Some (mkPeer false [offer])).
Proof.
  split.
  - intros peer Hp. unfold handleICECandidate. rewrite Hp. simpl.
    apply lookup_insert_eq.
  - intros Hn. unfold handleICECandidate. rewrite Hn. split; [done|].
    intros offer. unfold handleOffer, createPeerConnection. rewrite Hn. simpl.
    apply lookup_insert_eq.
Qed.

(** On the fresh page, B's early candidate is dropped and B's offer then
    creates a link that was handed the offer alone. *)
Lemma candidate_routed_or_dropped_witness :
  handleICECandidate Scenario.fresh Scenario.sB (VObj 1) = Scenario.fresh
  /\ peers (handleOffer (handleICECandidate Scenario.fresh Scenario.sB (VObj 1))
              Scenario.sB (VObj 2)) !! Scenario.sB
     = Some (mkPeer false [VObj 2]).
Proof.
  destruct (candidate_routed_or_dropped Scenario.fresh Scenario.sB (VObj 1))
    as [_ Hdrop].
  destruct Hdrop as [Hsame Hoffer].
  - vm_compute. reflexivity.
  - split; [exact Hsame|apply Hoffer].
Defined.

Lemma removePeer_peers_gone m sid : peers (fst (removePeer m sid)) !! sid = None.
Proof.
  unfold removePeer. destruct (peers m !! sid) eqn:E;
    destruct (bool_decide _); simpl; try done; apply lookup_delete_eq.
Qed.

Lemma removePeer_audio_gone m sid : sid ∉ audioElements (fst (removePeer m sid)).
Proof.
  unfold removePeer. destruct (peers m !! sid);
    destruct (bool_decide_reflect (sid ∈ audioElements m)) as [Hin|Hin]; simpl;
    try done; apply not_elem_of_difference; right; by apply elem_of_singleton.
Qed.

Lemma removePeer_callback m sid :
  peerDisconnected (fst (removePeer m sid)) = peerDisconnected m.
Proof.
  unfold removePeer. destruct (peers m !! sid); destruct (bool_decide _); done.
Qed.

Lemma removePeer_without_link m sid :
  peers m !! sid = None -> sid ∉ audioElements m ->
  removePeer m sid
  = (m, if peerDisconnected m then [PeerDisconnected sid] else []).
Proof.
  intros Hp Ha. unfold removePeer. rewrite Hp.
  rewrite bool_decide_eq_false_2 by done. simpl. by destruct m.
Qed.

(** C9 as stated fails: on a page with the [peerDisconnected] callback set,
    removing a link that does not exist still runs the callback, and so does
    the second of two removals. *)
Lemma removePeer_repeats_callback :
  ~ removePeer_noop Scenario.fresh Scenario.sB
  /\ ~ removePeer_idempotent Scenario.fresh Scenario.sB.
Proof.
  split.
  - intros H. assert (Hn : peers Scenario.fresh !! Scenario.sB = None)
      by (vm_compute; reflexivity).
    specialize (H Hn). vm_compute in H. discriminate H.
  - intros H. vm_compute in H. discriminate H.
Qed.

(** C9, amended. [removePeer] is idempotent on the manager's state: a second
    removal of the same identity leaves the peers and the audio elements as
    the first left them, destroys nothing and removes nothing; and for an
    identity with no link and no audio element the state is unchanged.  Every
    invocation, a repeated one or one for an unknown identity included, runs
    the [peerDisconnected] callback when one is set. *)
Theorem removePeer_state_idempotent (m : Manager) (sid : jsstring) :
  removePeer (fst (removePeer m sid)) sid
  = (fst (removePeer m sid),
     if peerDisconnected m then [PeerDisconnected sid] else [])
  /\ (peers m !! sid = None -> sid ∉ audioElements m ->
      removePeer m sid
      = (m, if peerDisconnected m then [PeerDisconnected sid] else [])).
Proof.
  split; [|apply removePeer_without_link].
  rewrite removePeer_without_link.
  - by rewrite removePeer_callback.
  - apply removePeer_peers_gone.
  - apply removePeer_audio_gone.
Qed.

(** Removing B twice from the fresh page: the state stays, the callback runs. *)
Lemma removePeer_state_idempotent_witness :
  removePeer Scenario.fresh Scenario.sB
  = (Scenario.fresh, [PeerDisconnected Scenario.sB]).
Proof.
  destruct (removePeer_state_idempotent Scenario.fresh Scenario.sB) as [_ H].
  apply H.
  - vm_compute. reflexivity.
  - apply not_elem_of_empty.
Defined.

End ClientFacts.

(** ** Facts on speaking detection *)

Module VoiceFacts.
Import WebRTC.

Lemma negb_eqb_xorb a b : negb (Bool.eqb a b) = xorb a b.
Proof. by destruct a, b. Qed.

(** A tick reports nothing and keeps the flag, or reports the new flag, which
    is the opposite of the old one. *)
Lemma checkAudioLevel_cases sid d w :
  (snd (checkAudioLevel true sid d w) = []
   /\ isSpeaking (fst (checkAudioLevel true sid d w)) = isSpeaking d)
  \/ (snd (checkAudioLevel true sid d w)
      = [Speaking sid (negb (isSpeaking d))]
      /\ isSpeaking (fst (checkAudioLevel true sid d w)) = negb (isSpeaking d)).
Proof.
  unfold checkAudioLevel.
  destruct (PrimFloat.ltb _ _), (isSpeaking d); simpl; auto.
Qed.

Lemma checkLocalAudioLevel_cases muted d w :
  (snd (checkLocalAudioLevel true true muted d w) = []
   /\ isLocalSpeaking (fst (checkLocalAudioLevel true true muted d w))
      = isLocalSpeaking d)
  \/ (snd (checkLocalAudioLevel true true muted d w)
      = [Speaking (lit "local") (negb (isLocalSpeaking d))]
      /\ isLocalSpeaking (fst (checkLocalAudioLevel true true muted d w))
         = negb (isLocalSpeaking d)).
Proof.
  unfold checkLocalAudioLevel. simpl.
  destruct (PrimFloat.ltb (thresholdOf _) _), muted, (isLocalSpeaking d);
    simpl; auto.
Qed.

Lemma monitor_silent sid ws : forall d, snd (monitor false sid d ws) = [].
Proof.
  induction ws as [|w ws IH]; intros d; simpl; [done|].
  destruct (checkAudioLevel false sid d w) as [d1 e1] eqn:E1.
  specialize (IH d1). destruct (monitor false sid d1 ws) as [d2 e2].
  simpl in *. subst e2. rewrite app_nil_r.
  unfold checkAudioLevel in E1. destruct (negb _) in E1; by simplify_eq.
Qed.

Lemma monitorLocal_silent ws : forall d, snd (monitorLocal false d ws) = [].
Proof.
  induction ws as [|[muted w] ws IH]; intros d; simpl; [done|].
  destruct (checkLocalAudioLevel false true muted d w) as [d1 e1] eqn:E1.
  specialize (IH d1). destruct (monitorLocal false d1 ws) as [d2 e2].
  simpl in *. subst e2. rewrite app_nil_r.
  unfold checkLocalAudioLevel in E1. simpl in E1.
  destruct (negb _) in E1; by simplify_eq.
Qed.

Lemma monitor_alternates sid ws : forall d,
  alternates (isSpeaking d) (List.map flagOf (snd (monitor true sid d ws))).
Proof.
  induction ws as [|w ws IH]; intros d; simpl; [done|].
  pose proof (checkAudioLevel_cases sid d w) as Hc.
  destruct (checkAudioLevel true sid d w) as [d1 e1].
  specialize (IH d1). destruct (monitor true sid d1 ws) as [d2 e2].
  simpl in *. destruct Hc as [[-> Hf]|[-> Hf]]; simpl.
  - by rewrite <- Hf.
  - split; [done|]. by rewrite <- Hf.
Qed.

Lemma monitorLocal_alternates ws : forall d,
  alternates (isLocalSpeaking d)
    (List.map flagOf (snd (monitorLocal true d ws))).
Proof.
  induction ws as [|[muted w] ws IH]; intros d; simpl; [done|].
  pose proof (checkLocalAudioLevel_cases muted d w) as Hc.
  destruct (checkLocalAudioLevel true true muted d w) as [d1 e1].
  specialize (IH d1). destruct (monitorLocal true d1 ws) as [d2 e2].
  simpl in *. destruct Hc as [[-> Hf]|[-> Hf]]; simpl.
  - by rewrite <- Hf.
  - split; [done|]. by rewrite <- Hf.
Qed.

(** C8. On every tick of a monitored stream, remote or local, a speaking
    event is emitted only if the speaking flag after the tick differs from the
    flag before it, and it then carries the new flag; on an unchanged tick
    nothing is emitted.  Over any run of ticks the emitted flags therefore
    alternate.  On the local stream a tick with the mute flag set leaves the
    speaking flag false whatever the samples are. *)
Theorem speaking_event_only_on_change :
  (forall cb sid d w,
     snd (checkAudioLevel cb sid d w)
     = if cb && xorb (isSpeaking (fst (checkAudioLevel cb sid d w)))
                  (isSpeaking d)
       then [Speaking sid (isSpeaking (fst (checkAudioLevel cb sid d w)))]
       else [])
  /\ (forall cb muted d w,
        snd (checkLocalAudioLevel cb true muted d w)
        = if cb && xorb (isLocalSpeaking
                           (fst (checkLocalAudioLevel cb true muted d w)))
                     (isLocalSpeaking d)
          then [Speaking (lit "local")
                  (isLocalSpeaking (fst (checkLocalAudioLevel cb true muted d w)))]
          else [])
  /\ (forall cb sid d ws,
        alternates (isSpeaking d)
          (List.map flagOf (snd (monitor cb sid d ws))))
  /\ (forall cb d ws,
        alternates (isLocalSpeaking d)
          (List.map flagOf (snd (monitorLocal cb d ws))))
  /\ (forall cb d w,
        isLocalSpeaking (fst (checkLocalAudioLevel cb true true d w)) = false).
Proof.
  repeat split.
  - intros cb sid d w. unfold checkAudioLevel.
    destruct (PrimFloat.ltb _ _), (isSpeaking d), cb; reflexivity.
  - intros cb muted d w. unfold checkLocalAudioLevel. simpl.
    destruct (PrimFloat.ltb (thresholdOf _) _), muted, (isLocalSpeaking d), cb;
      reflexivity.
  - intros [] sid d ws; [apply monitor_alternates|].
    by rewrite monitor_silent.
  - intros [] d ws; [apply monitorLocal_alternates|].
    by rewrite monitorLocal_silent.
  - intros cb d w. unfold checkLocalAudioLevel. simpl.
    rewrite andb_false_r. simpl. by destruct (isLocalSpeaking d).
Qed.

(** Silence, then sound, then sound with the microphone muted. *)
Lemma speaking_event_only_on_change_witness :
  snd (monitorLocal true newLocalDetector
         [(false, Scenario.quiet); (false, Scenario.loud); (true, Scenario.loud)])
  = [Speaking (lit "local") true; Speaking (lit "local") false]
  /\ alternates false
       (List.map flagOf
          (snd (monitorLocal true newLocalDetector
                  [(false, Scenario.quiet); (false, Scenario.loud);
                   (true, Scenario.loud)]))).
Proof.
  split; [vm_compute; reflexivity|].
  destruct speaking_event_only_on_change as (_ & _ & _ & Hlocal & _).
  apply (Hlocal true newLocalDetector).
Defined.

End VoiceFacts.

(** ** More on insertion-ordered maps: keys, order and size *)

Module OMapOrder.
Import OMap.
Section Facts.
Context {V : Type}.
Implicit Types (m : list (jsstring * V)) (v : V) (k : jsstring).

Lemma get_None k m : get k m = None <-> ~ In k (List.map fst m).
Proof.
  induction m as [|[k' v'] m IH]; simpl; [tauto|].
  destruct (decide (k' = k)) as [->|Hne].
  - split; [discriminate|]. intros H. destruct H. auto.
  - rewrite IH. tauto.
Qed.

Lemma get_Some_In k m : is_Some (get k m) <-> In k (List.map fst m).
Proof.
  destruct (get k m) eqn:E.
  - split; [intros _|eauto].
    destruct (in_dec (fun a b : jsstring => decide (a = b)) k (List.map fst m)) as [|Hn]; auto.
    apply get_None in Hn. congruence.
  - split; [intros [? ?]; discriminate|].
    intros Hin. apply get_None in E. contradiction.
Qed.

Lemma set_present k v m :
  In k (List.map fst m) -> List.map fst (set k v m) = List.map fst m.
Proof.
  induction m as [|[k' v'] m IH]; simpl; [tauto|].
  destruct (decide (k' = k)) as [->|Hne]; simpl; [done|].
  intros [?|Hin]; [congruence|]. by rewrite IH.
Qed.

Lemma set_absent k v m : ~ In k (List.map fst m) -> set k v m = m ++ [(k, v)].
Proof.
  induction m as [|[k' v'] m IH]; simpl; [done|].
  intros Hn. rewrite decide_False by tauto. rewrite IH; tauto.
Qed.

Lemma delete_absent k m : ~ In k (List.map fst m) -> delete k m = m.
Proof.
  unfold delete. induction m as [|[k' v'] m IH]; simpl; [done|].
  intros Hn. rewrite bool_decide_eq_false_2 by tauto. simpl.
  rewrite IH; tauto.
Qed.

Lemma delete_keys k m :
  List.map fst (delete k m)
  = List.filter (fun x => negb (bool_decide (x = k))) (List.map fst m).
Proof.
  unfold delete. induction m as [|[k' v'] m IH]; simpl; [done|].
  destruct (bool_decide (k' = k)); simpl; by rewrite IH.
Qed.

Lemma delete_In k k' m :
  In k' (List.map fst (delete k m)) <-> k' <> k /\ In k' (List.map fst m).
Proof.
  rewrite delete_keys, List.filter_In, negb_true_iff, bool_decide_eq_false.
  tauto.
Qed.

Lemma delete_length k m :
  NoDup (List.map fst m) -> In k (List.map fst m) ->
  S (length (delete k m)) = length m.
Proof.
  unfold delete. induction m as [|[k' v'] m IH]; simpl; [tauto|].
  intros Hnd Hin. apply NoDup_cons in Hnd as [Hk Hnd].
  rewrite list_elem_of_In in Hk.
  destruct (bool_decide_reflect (k' = k)) as [->|Hne]; simpl.
  - f_equal. apply (f_equal (@length _)). by apply delete_absent.
  - f_equal. apply IH; [done|]. destruct Hin; [congruence|done].
Qed.

Lemma set_NoDup k v m : NoDup (List.map fst m) -> NoDup (List.map fst (set k v m)).
Proof.
  intros Hnd.
  destruct (in_dec (fun a b : jsstring => decide (a = b)) k (List.map fst m)) as [Hin|Hn].
  - by rewrite set_present.
  - rewrite set_absent, map_app by done. simpl.
    apply NoDup_app. split; [done|]. split.
    + intros x Hx Hk. apply list_elem_of_singleton in Hk as ->.
      apply Hn. by apply list_elem_of_In.
    + apply NoDup_singleton.
Qed.

Lemma delete_NoDup k m : NoDup (List.map fst m) -> NoDup (List.map fst (delete k m)).
Proof.
  intros Hnd. rewrite delete_keys. apply NoDup_ListNoDup.
  apply List.NoDup_filter. by apply NoDup_ListNoDup.
Qed.

Lemma set_Forall (P : jsstring * V -> Prop) k v m :
  Forall P m -> P (k, v) -> Forall P (set k v m).
Proof.
  intros Hm Hk. induction m as [|[k' v'] m IH]; simpl.
  - by constructor.
  - inversion Hm; subst. destruct (decide (k' = k)); constructor; auto.
Qed.

Lemma delete_Forall (P : jsstring * V -> Prop) k m :
  Forall P m -> Forall P (delete k m).
Proof.
  intros Hm. unfold delete. apply List.Forall_forall. intros x Hx.
  apply List.filter_In in Hx as [Hx _].
  rewrite List.Forall_forall in Hm. auto.
Qed.

Lemma get_Forall (P : jsstring * V -> Prop) k v m :
  Forall P m -> get k m = Some v -> P (k, v).
Proof.
  intros Hm. induction m as [|[k' v'] m IH]; simpl; [discriminate|].
  inversion Hm; subst. destruct (decide (k' = k)) as [->|]; [|auto].
  by intros [= <-].
Qed.

End Facts.
End OMapOrder.

(** ** More on the sanitization policy *)

Module SanitizeMore.
Import RoomManager Wellformed.

Lemma trimStart_split s :
  exists ws, s = ws ++ trimStart s.
Proof.
  induction s as [|c s [ws IH]]; simpl; [by exists []|].
  destruct (is_space c); [|by exists []].
  exists (c :: ws). simpl. by f_equal.
Qed.

Lemma trimStart_head s :
  match trimStart s with c :: _ => is_space c = false | [] => True end.
Proof.
  induction s as [|c s IH]; simpl; [done|].
  destruct (is_space c) eqn:E; [done|]. exact E.
Qed.

Lemma trimEnd_split s : exists ws, s = trimEnd s ++ ws.
Proof.
  unfold trimEnd. destruct (trimStart_split (rev s)) as [ws Hws].
  exists (rev ws). rewrite <- rev_app_distr, <- Hws. by rewrite rev_involutive.
Qed.

Lemma trim_head s :
  match trim s with c :: _ => is_space c = false | [] => True end.
Proof.
  unfold trim. pose proof (trimStart_head s) as Hh.
  destruct (trimEnd_split (trimStart s)) as [ws Hws].
  destruct (trimEnd (trimStart s)) as [|c t]; [done|].
  rewrite Hws in Hh. exact Hh.
Qed.

Lemma trimStart_id s :
  match s with [] => true | c :: _ => negb (is_space c) end = true ->
  trimStart s = s.
Proof.
  destruct s as [|c s]; simpl; [done|].
  intros H. apply negb_true_iff in H. by rewrite H.
Qed.

Lemma trim_id s : edgesOk s = true -> trim s = s.
Proof.
  unfold edgesOk. rewrite andb_true_iff. intros [Hh Hl].
  unfold trim, trimEnd. rewrite (trimStart_id s Hh), (trimStart_id (rev s) Hl).
  apply rev_involutive.
Qed.

Lemma sanitizeUsername_valid v : validName (sanitizeUsername v) = true.
Proof.
  unfold validName. apply andb_true_iff.
  destruct (SanitizeFacts.sanitizeUsername_cases v) as [->|(s & _ & ->)].
  - vm_compute. done.
  - split.
    + apply Nat.leb_le, SanitizeFacts.cleanUsername_length.
    + apply forallb_forall. intros c Hc.
      pose proof (SanitizeFacts.cleanUsername_chars s) as Hall.
      rewrite List.Forall_forall in Hall. auto.
Qed.

(** X1. [sanitizeMessage] returns at most 1000 code units for every input,
    the empty string for every input that is not a string, and never a string
    that begins with whitespace. *)
Theorem sanitizeMessage_bounds (v : value) :
  (length (sanitizeMessage v) <= 1000)%nat
  /\ (if is_string v then True else sanitizeMessage v = [])
  /\ match sanitizeMessage v with
     | c :: _ => is_space c = false
     | [] => True
     end.
Proof.
  unfold sanitizeMessage.
  destruct v as [| |b|x|s|r]; cbn [truthy is_string negb orb];
    try (simpl; repeat split; lia).
  - destruct (negb b); simpl; repeat split; lia.
  - destruct (negb _); simpl; repeat split; lia.
  - destruct s as [|c s]; [simpl; repeat split; lia|].
    cbn [negb orb]. split; [|split; [done|]].
    + unfold slice0. rewrite length_firstn. lia.
    + pose proof (trim_head (c :: s)) as Hh. unfold slice0.
      destruct (trim (c :: s)); simpl; done.
Qed.

(** X2. Clean text passes unchanged: a nonempty name of at most 50 allowed
    code units with no whitespace at either end is returned as it is by
    [sanitizeUsername], and a nonempty message of at most 1000 code units with
    no whitespace at either end is returned as it is by [sanitizeMessage]. *)
Theorem sanitize_keeps_clean_text (s : jsstring) :
  s <> [] -> edgesOk s = true ->
  ((length s <= 50)%nat -> forallb username_char s = true ->
   sanitizeUsername (VStr s) = s)
  /\ ((length s <= 1000)%nat -> sanitizeMessage (VStr s) = s).
Proof.
  intros Hne He. split.
  - intros Hlen Hall. unfold sanitizeUsername, cleanUsername, slice0.
    destruct s as [|c s]; [done|]. simpl negb. simpl orb. cbv iota.
    rewrite (trim_id _ He), firstn_all2 by done.
    assert (Hf : List.filter username_char (c :: s) = c :: s).
    { apply forallb_filter_id, Hall. }
    rewrite Hf. done.
  - intros Hlen. unfold sanitizeMessage, slice0.
    destruct s as [|c s]; [done|]. simpl negb. simpl orb. cbv iota.
    by rewrite (trim_id _ He), firstn_all2.
Qed.

(** The name ["Ann B."] and the message ["hi, all!"] are kept. *)
Lemma sanitize_keeps_clean_text_witness :
  sanitizeUsername (VStr (lit "Ann B.")) = lit "Ann B."
  /\ sanitizeMessage (VStr (lit "hi, all!")) = lit "hi, all!".
Proof.
  split.
  - destruct (sanitize_keeps_clean_text (lit "Ann B.")) as [Hname _].
    + discriminate.
    + vm_compute. reflexivity.
    + apply Hname; [vm_compute; lia|vm_compute; reflexivity].
  - destruct (sanitize_keeps_clean_text (lit "hi, all!")) as [_ Hmsg].
    + discriminate.
    + vm_compute. reflexivity.
    + apply Hmsg. vm_compute. lia.
Defined.

End SanitizeMore.

(** ** Rooms and the registry *)

Module RoomFacts.
Import RoomManager Wellformed OMapFacts OMapOrder.

Lemma withParticipants_same r : withParticipants r (participants r) = r.
Proof. by destruct r. Qed.

Lemma getParticipantsList_length r :
  length (getParticipantsList r) = length (participants r).
Proof. unfold getParticipantsList, OMap.values. by rewrite !length_map. Qed.

Lemma getParticipantsList_ids r :
  List.map socketId (getParticipantsList r)
  = List.map (fun e => socketId (snd e)) (participants r).
Proof.
  unfold getParticipantsList, OMap.values. rewrite !List.map_map. done.
Qed.

(** X3. [addParticipant] stores a fresh, unmuted participant under the given
    identity and leaves every other entry as it is; a new identity goes to the
    end of the roster, an identity already present keeps its place, its stale
    entry being overwritten.  The room's id, creator and creation time are
    unchanged. *)
Theorem addParticipant_roster (r : Room) (sid u : jsstring) (p : value) :
  getParticipant (addParticipant r sid u p) sid = Some (newParticipant sid u p)
  /\ (forall t, t <> sid ->
        getParticipant (addParticipant r sid u p) t = getParticipant r t)
  /\ keysOf (addParticipant r sid u p)
     = match getParticipant r sid with
       | Some _ => keysOf r
       | None => keysOf r ++ [sid]
       end
  /\ (id (addParticipant r sid u p), creator (addParticipant r sid u p),
      createdAt (addParticipant r sid u p))
     = (id r, creator r, createdAt r).
Proof.
  split; [apply get_set_eq|]. split.
  - intros t Ht. unfold getParticipant. simpl. by apply get_set_ne.
  - split; [|done]. unfold keysOf, getParticipant. simpl.
    destruct (OMap.get sid (participants r)) eqn:E.
    + apply set_present, get_Some_In. eauto.
    + apply get_None in E. rewrite set_absent, map_app by done. done.
Qed.

(** X4. [removeParticipant] deletes the entry of the given identity and keeps
    the others in their order; in a room whose identities are distinct the
    roster gets shorter by exactly one when the identity was present, and the
    room is unchanged when it was not. *)
Theorem removeParticipant_roster (r : Room) (sid : jsstring) :
  NoDup (keysOf r) ->
  getParticipant (removeParticipant r sid) sid = None
  /\ (forall t, t <> sid ->
        getParticipant (removeParticipant r sid) t = getParticipant r t)
  /\ keysOf (removeParticipant r sid)
     = List.filter (fun x => negb (bool_decide (x = sid))) (keysOf r)
  /\ match getParticipant r sid with
     | Some _ =>
         S (length (getParticipantsList (removeParticipant r sid)))
         = length (getParticipantsList r)
     | None => removeParticipant r sid = r
     end.
Proof.
  intros Hnd. split; [apply get_delete_eq|]. split.
  - intros t Ht. unfold getParticipant. simpl. by apply get_delete_ne.
  - split; [apply delete_keys|].
    unfold getParticipant. destruct (OMap.get sid (participants r)) eqn:E.
    + rewrite !getParticipantsList_length. simpl.
      apply delete_length; [done|]. apply get_Some_In. eauto.
    + apply get_None in E. unfold removeParticipant.
      rewrite delete_absent by done. apply withParticipants_same.
Qed.

(** X5. [getOrCreateRoom] registers a room once: the room it returns is the
    one a lookup finds, a second call with any other requester returns the same
    room and registry, other rooms are untouched, and when the id was free the
    new room has the requester as creator and no participant; [removeRoom]
    makes the lookup fail again. *)
Theorem getOrCreateRoom_once (rooms : gmap jsstring Room)
    (rid c1 c2 : jsstring) (t1 t2 : Z) :
  let r := getOrCreateRoom rooms rid c1 t1 in
  getRoom (fst r) rid = Some (snd r)
  /\ getOrCreateRoom (fst r) rid c2 t2 = r
  /\ (forall rid', rid' <> rid -> getRoom (fst r) rid' = getRoom rooms rid')
  /\ match getRoom rooms rid with
     | Some _ => fst r = rooms
     | None => snd r = mkRoom rid c1 [] t1
     end
  /\ getRoom (removeRoom (fst r) rid) rid = None.
Proof.
  unfold getOrCreateRoom, getRoom, removeRoom.
  destruct (rooms !! rid) as [room|] eqn:E; simpl.
  - rewrite E. repeat split; auto. apply lookup_delete_eq.
  - rewrite lookup_insert_eq. repeat split; auto.
    + intros rid' Hne. by rewrite lookup_insert_ne.
    + apply lookup_delete_eq.
Qed.

(** B leaves the room of A and B: one entry fewer, A's kept. *)
Lemma removeParticipant_roster_witness :
  S (length (getParticipantsList (removeParticipant Scenario.roomAB Scenario.sB)))
  = length (getParticipantsList Scenario.roomAB)
  /\ getParticipant (removeParticipant Scenario.roomAB Scenario.sB) Scenario.sA
     = Some Scenario.ann.
Proof.
  destruct (removeParticipant_roster Scenario.roomAB Scenario.sB)
    as (_ & Hother & _ & Hlen).
  - vm_compute. repeat constructor.
    + intros H. apply list_elem_of_singleton in H. discriminate H.
    + intros H. inversion H.
  - split; [exact Hlen|]. rewrite Hother; [reflexivity|discriminate].
Defined.

End RoomFacts.

(** ** Well-formed states of the relay *)

Module WellformedFacts.
Import RoomManager Server Wellformed OMapFacts OMapOrder SanitizeMore.

Lemma RoomOk_new rid c now : RoomOk rid (newRoom rid c now).
Proof. split; simpl; [done|constructor|constructor]. Qed.

Lemma RoomOk_add rid r sid u p :
  RoomOk rid r -> RoomOk rid (addParticipant r sid (sanitizeUsername u) p).
Proof.
  intros [Hid Hnd Hall]. split; simpl; [done| |].
  - by apply set_NoDup.
  - apply set_Forall; [done|]. simpl. split; [done|].
    apply sanitizeUsername_valid.
Qed.

Lemma RoomOk_remove rid r sid : RoomOk rid r -> RoomOk rid (removeParticipant r sid).
Proof.
  intros [Hid Hnd Hall]. split; simpl; [done| |].
  - by apply delete_NoDup.
  - by apply delete_Forall.
Qed.

Lemma RoomOk_mute rid r sid p m :
  RoomOk rid r -> getParticipant r sid = Some p ->
  RoomOk rid (withParticipants r (OMap.set sid (setMuted p m) (participants r))).
Proof.
  intros [Hid Hnd Hall] Hp. split; simpl; [done| |].
  - by apply set_NoDup.
  - apply set_Forall; [done|]. simpl.
    apply (get_Forall _ _ _ _ Hall Hp).
Qed.

Lemma WellFormed_init : WellFormed init.
Proof. split; intros *; simpl; rewrite lookup_empty; discriminate. Qed.

Lemma WellFormed_handle now st ev :
  WellFormed st -> WellFormed (fst (handle now st ev)).
Proof.
  intros [Hr Hn].
  destruct ev as [sid|sid rid0 u p|sid to o|sid to a|sid to c|sid msg|sid fl
                 |sid t|sid]; simpl;
    [unfold on_connection; destruct (sockets st !! sid) eqn:E; simpl;
     [by split|split; simpl; [done|]];
     intros s sess u; destruct (decide (sid = s)) as [->|Hne];
     [rewrite lookup_insert_eq; intros [= <-]; discriminate
     |rewrite lookup_insert_ne by done; apply Hn]
    |..];
    (destruct (sockets st !! sid) as [sess0|] eqn:Es; [|by split]);
    try (by split).
  - unfold on_join_room, getOrCreateRoom.
    assert (Hs : forall s sess u0,
              <[sid := mkSession (Some rid0) (Some (sanitizeUsername u))
                         ({[rid0]} ∪ socketRooms sess0)]> (sockets st) !! s
              = Some sess -> currentUsername sess = Some u0 ->
              validName u0 = true).
    { intros s sess u0. destruct (decide (sid = s)) as [->|Hne].
      - rewrite lookup_insert_eq. intros [= <-] [= <-].
        apply sanitizeUsername_valid.
      - rewrite lookup_insert_ne by done. apply Hn. }
    destruct (rooms st !! rid0) as [room|] eqn:E; simpl; split; simpl;
      try exact Hs.
    + intros rid r. destruct (decide (rid0 = rid)) as [->|Hne].
      * rewrite lookup_insert_eq. intros [= <-]. apply RoomOk_add. eauto.
      * rewrite lookup_insert_ne by done. apply Hr.
    + intros rid r. destruct (decide (rid0 = rid)) as [->|Hne].
      * rewrite lookup_insert_eq. intros [= <-]. apply RoomOk_add, RoomOk_new.
      * rewrite !lookup_insert_ne by done. apply Hr.
  - unfold on_send_message. destruct (joinedRoom sess0); [|by split].
    destruct (negb _); by split.
  - unfold on_toggle_mute, getRoom.
    destruct (joinedRoom sess0) as [rid0|]; [|by split].
    destruct (rooms st !! rid0) as [room0|] eqn:E; [|by split].
    destruct (getParticipant room0 sid) as [p|] eqn:Ep; [|by split].
    split; simpl; [|done].
    intros rid r. destruct (decide (rid0 = rid)) as [->|Hne].
    + rewrite lookup_insert_eq. intros [= <-]. apply RoomOk_mute; eauto.
    + rewrite lookup_insert_ne by done. apply Hr.
  - unfold on_kick_user, getRoom.
    destruct (joinedRoom sess0) as [rid0|]; [|by split].
    destruct (rooms st !! rid0) as [room0|] eqn:E; [|by split].
    destruct (negb _); [by split|].
    destruct (bool_decide _); [by split|].
    split; simpl.
    + intros rid r. destruct (decide (rid0 = rid)) as [->|Hne].
      * rewrite lookup_insert_eq. intros [= <-]. apply RoomOk_remove; eauto.
      * rewrite lookup_insert_ne by done. apply Hr.
    + intros s sess u0. rewrite lookup_alter. case_decide; [|apply Hn].
      subst. destruct (sockets st !! s) as [s0|] eqn:E0; simpl; [|done].
      intros [= <-]. simpl. eapply Hn; eauto.
  - assert (Hd : forall s sess u0,
              base.delete sid (sockets st) !! s = Some sess ->
              currentUsername sess = Some u0 -> validName u0 = true).
    { intros s sess u0. rewrite lookup_delete. case_decide; [done|apply Hn]. }
    unfold on_disconnect, getRoom, removeRoom.
    destruct (joinedRoom sess0) as [rid0|]; [|by split].
    destruct (rooms st !! rid0) as [room0|] eqn:E; [|by split].
    split; simpl; [|done].
    intros rid r. destruct (isEmpty _);
      (destruct (decide (rid0 = rid)) as [->|Hne];
       [rewrite ?lookup_delete_eq, ?lookup_insert_eq; intros [= <-];
        apply RoomOk_remove; eauto
       |rewrite ?lookup_delete_ne, ?lookup_insert_ne by done; apply Hr]).
Qed.

Lemma WellFormed_run evs : forall st, WellFormed st -> WellFormed (run st evs).
Proof.
  induction evs as [|[now ev] evs IH]; intros st Hwf; simpl; [done|].
  apply IH, WellFormed_handle, Hwf.
Qed.

(** X6. In every reachable state of the relay each room is registered under
    its own id, its participants have distinct identities, each participant is
    keyed by its own socket id and carries a sanitized name (at most 50 allowed
    code units), and so does the name recorded in every session. *)
Theorem reachable_well_formed (evs : list (Z * Event)) :
  let st := run init evs in
  (forall rid r, rooms st !! rid = Some r ->
     id r = rid
     /\ NoDup (keysOf r)
     /\ forall sid p, getParticipant r sid = Some p ->
          socketId p = sid
          /\ (length (username p) <= 50)%nat
          /\ Forall (fun c => username_char c = true) (username p))
  /\ (forall sid sess u,
        sockets st !! sid = Some sess -> currentUsername sess = Some u ->
        (length u <= 50)%nat /\ Forall (fun c => username_char c = true) u).
Proof.
  intros st.
  assert (Hv : forall u, validName u = true ->
            (length u <= 50)%nat /\ Forall (fun c => username_char c = true) u).
  { intros u Hu. unfold validName in Hu. apply andb_true_iff in Hu as [Hl Hc].
    split; [by apply Nat.leb_le|].
    apply List.Forall_forall. by apply forallb_forall. }
  destruct (WellFormed_run evs init WellFormed_init) as [Hr Hn].
  split.
  - intros rid r Hrid. destruct (Hr rid r Hrid) as [Hid Hnd Hall].
    split; [done|]. split; [done|].
    intros sid p Hp. destruct (get_Forall _ _ _ _ Hall Hp) as [Hs Hu].
    simpl in *. split; [done|]. by apply Hv.
  - intros sid sess u Hs Hu. apply Hv. eapply Hn; eauto.
Qed.

End WellformedFacts.

(** ** Who receives a relayed message *)

Module AddressFacts.
Import RoomManager Server Wellformed ServerFacts.

Lemma Addressed_init ids : Addressed ids init.
Proof. split; intros *; simpl; rewrite lookup_empty; discriminate. Qed.

Lemma Addressed_handle ids now st ev :
  separates ids ev -> Addressed ids st -> Addressed ids (fst (handle now st ev)).
Proof.
  intros Hsep [Hlive Hown Honly Hbound].
  destruct ev as [sid|sid rid0 u p|sid to o|sid to a|sid to c|sid msg|sid fl
                 |sid t|sid]; simpl.
  { unfold on_connection. destruct (sockets st !! sid) eqn:E; simpl;
      [by split|].
    simpl in Hsep. split; simpl; intros s sess;
      (destruct (decide (sid = s)) as [->|Hne];
       [rewrite lookup_insert_eq; intros [= <-]
       |rewrite lookup_insert_ne by done; eauto]); simpl in *.
    - done.
    - by apply elem_of_singleton.
    - intros x Hx _. by apply elem_of_singleton in Hx.
    - discriminate. }
  all: destruct (sockets st !! sid) as [sess0|] eqn:Es; [|by split].
  all: try (by split).
  - simpl in Hsep. unfold on_join_room. destruct (getOrCreateRoom _ _ _ _).
    simpl. split; simpl; intros s sess;
      (destruct (decide (sid = s)) as [->|Hne];
       [rewrite lookup_insert_eq; intros [= <-]
       |rewrite lookup_insert_ne by done; eauto]); simpl in *.
    + eauto.
    + apply elem_of_union. right. eauto.
    + intros x [Hx|Hx]%elem_of_union Hin; [|eauto].
      apply elem_of_singleton in Hx. by subst.
    + intros rid [= <-]. done.
  - unfold on_send_message. destruct (joinedRoom sess0); [|by split].
    destruct (negb _); by split.
  - unfold on_toggle_mute, getRoom.
    destruct (joinedRoom sess0) as [r0|]; [|by split].
    destruct (rooms st !! r0) as [room0|]; [|by split].
    destruct (getParticipant room0 sid); by split.
  - unfold on_kick_user, getRoom.
    destruct (joinedRoom sess0) as [r0|] eqn:Ej; [|by split].
    destruct (rooms st !! r0) as [room0|]; [|by split].
    destruct (negb _); [by split|].
    destruct (bool_decide _); [by split|].
    apply joinedRoom_Some in Ej.
    assert (Hr0 : r0 ∉ ids) by eauto.
    assert (Hsess : forall s sess,
              alter (leave r0) t (sockets st) !! s = Some sess ->
              exists s0, sockets st !! s = Some s0
                /\ currentRoomId sess = currentRoomId s0
                /\ (forall x, x ∈ socketRooms sess -> x ∈ socketRooms s0)
                /\ (forall x, x ∈ socketRooms s0 -> x <> r0 ->
                      x ∈ socketRooms sess)).
    { intros s sess. rewrite lookup_alter. case_decide.
      - subst. destruct (sockets st !! s) as [s0|]; simpl; [|done].
        intros [= <-]. exists s0. simpl. repeat split; auto.
        + intros x Hx. apply elem_of_difference in Hx. tauto.
        + intros x Hx Hne. apply elem_of_difference. split; [done|].
          intros Hx'. by apply elem_of_singleton in Hx'.
      - intros H'. exists sess. auto. }
    split; simpl; intros s sess Hs;
      apply Hsess in Hs as (s0 & Hs0 & Hcur & Hsub & Hsup).
    + eauto.
    + apply Hsup; [eauto|]. intros ->. apply Hr0. eauto.
    + intros x Hx Hin. eauto.
    + intros rid Hrid. rewrite Hcur in Hrid. eauto.
  - assert (Hd : forall s sess,
              base.delete sid (sockets st) !! s = Some sess ->
              sockets st !! s = Some sess).
    { intros s sess. rewrite lookup_delete. case_decide; [done|auto]. }
    assert (Had : Addressed ids (mkState (rooms st) (base.delete sid (sockets st)))).
    { split; simpl; intros s sess Hs; apply Hd in Hs; eauto. }
    unfold on_disconnect, getRoom.
    destruct (joinedRoom sess0) as [r0|]; [|done].
    destruct (rooms st !! r0) as [room0|]; [|done].
    destruct Had as [H1 H2 H3 H4]. split; simpl; eauto.
Qed.

Lemma Addressed_run ids evs : forall st,
  Forall (fun e => separates ids (snd e)) evs ->
  Addressed ids st -> Addressed ids (run st evs).
Proof.
  induction evs as [|[now ev] evs IH]; intros st Hf Had; simpl; [done|].
  inversion Hf; subst. apply IH; [done|]. by apply Addressed_handle.
Qed.

(** X7. In a run in which no room is named by a socket id, an offer, answer or
    candidate addressed to a socket id is received by the live connection with
    that id, provided it is not the sender, and by no other connection. *)
Theorem relay_reaches_only_target (ids : gset jsstring)
    (evs : list (Z * Event)) (s to t : jsstring) (m : Msg) :
  Forall (fun e => separates ids (snd e)) evs ->
  to ∈ ids ->
  receives (run init evs) t (SocketTo s to m) = true
  <-> t = to /\ t <> s /\ is_Some (sockets (run init evs) !! t).
Proof.
  intros Hf Hto.
  destruct (Addressed_run ids evs init Hf (Addressed_init ids))
    as [Hlive Hown Honly Hbound].
  rewrite receives_SocketTo. split.
  - intros (Hne & sess & Hs & Hin). split; [|split; [done|eauto]].
    symmetry. eauto.
  - intros (-> & Hne & [sess Hs]). split; [done|]. exists sess. eauto.
Qed.

(** After A and B joined room R, what A addresses to B reaches B. *)
Lemma relay_reaches_only_target_witness :
  receives Scenario.joinedAB Scenario.sB
    (SocketTo Scenario.sA Scenario.sB (OfferFrom Scenario.sA (VObj 7))) = true.
Proof.
  apply (relay_reaches_only_target {[Scenario.sA; Scenario.sB]}
           [(0%Z, Connect Scenario.sA); (1%Z, Connect Scenario.sB);
            (2%Z, JoinRoom Scenario.sA Scenario.roomR (VStr (lit "Ann"))
                    (VStr (lit "p1")));
            (3%Z, JoinRoom Scenario.sB Scenario.roomR (VStr (lit "Bob"))
                    (VStr (lit "p2")))]
           Scenario.sA Scenario.sB Scenario.sB).
  - repeat constructor; simpl; vm_compute; try reflexivity;
      intros H; discriminate H.
  - vm_compute. reflexivity.
  - split; [reflexivity|]. split; [vm_compute; discriminate|].
    vm_compute. eauto.
Defined.

End AddressFacts.

(** ** Joining: the roster and the order of arrival *)

Module JoinFacts.
Import RoomManager Server Wellformed OMapFacts OMapOrder ServerFacts
  WellformedFacts RoomFacts.

Lemma copy_id (p : Participant) :
  mkParticipant (socketId p) (username p) (peerId p) (isMuted p) = p.
Proof. by destruct p. Qed.

Lemma getParticipantsList_values r :
  getParticipantsList r = OMap.values (participants r).
Proof.
  unfold getParticipantsList. rewrite <- (map_id (OMap.values _)) at 2.
  apply map_ext. intros p. apply copy_id.
Qed.

(** Setting the entry of [sid] does not show in the entries of the others. *)
Lemma others_after_set sid v (m : list (jsstring * Participant)) :
  socketId v = sid ->
  Forall (fun e => socketId (snd e) = fst e) m ->
  List.filter (notSid sid) (OMap.values (OMap.set sid v m))
  = List.filter (notSid sid) (OMap.values m).
Proof.
  intros Hv Hm. unfold OMap.values, notSid.
  induction m as [|[k v'] m IH]; simpl.
  - rewrite bool_decide_eq_true_2 by done. done.
  - inversion Hm as [|? ? Hk Hm']; subst. simpl in Hk.
    destruct (decide (k = socketId v)) as [->|Hne]; simpl.
    + rewrite Hk. rewrite !bool_decide_eq_true_2 by done. done.
    + rewrite IH by done. done.
Qed.

Lemma RoomOk_keys rid r :
  RoomOk rid r -> Forall (fun e => socketId (snd e) = fst e) (participants r).
Proof.
  intros [_ _ Hall]. eapply Forall_impl; [exact Hall|]. by intros e [? _].
Qed.

Lemma join_emits now st sid rid sess room u p :
  sockets st !! sid = Some sess ->
  rooms st !! rid = Some room ->
  RoomOk rid room ->
  snd (handle now st (JoinRoom sid rid u p))
  = [SocketEmit sid
       (RoomJoined (List.filter (notSid sid) (getParticipantsList room))
          (bool_decide (creator room = sid)));
     SocketTo sid rid (UserJoined sid (sanitizeUsername u) p)].
Proof.
  intros Hs Hr Hok.
  simpl. rewrite Hs. unfold on_join_room, getOrCreateRoom. rewrite Hr. simpl.
  do 3 f_equal. rewrite !getParticipantsList_values. simpl.
  apply others_after_set; [done|]. by eapply RoomOk_keys.
Qed.

Lemma roster_whole rid room sid :
  RoomOk rid room ->
  getParticipant room sid = None ->
  List.filter (notSid sid) (getParticipantsList room) = getParticipantsList room.
Proof.
  intros Hok Hn. apply get_None in Hn. rewrite getParticipantsList_values.
  pose proof (RoomOk_keys _ _ Hok) as Hk. unfold OMap.values.
  revert Hn Hk. induction (participants room) as [|[k v] m IH]; simpl; [done|].
  intros Hn Hk. inversion Hk; subst. simpl in *.
  unfold notSid at 1.
  rewrite bool_decide_eq_false_2 by (intros Heq; apply Hn; left; congruence).
  simpl. f_equal. apply IH; [tauto|done].
Qed.

(** X8. The roster in a join confirmation is the room's roster as it was
    before the request, in order of arrival, without the requester's own
    entry; for a requester not yet in the room it is that roster whole.  The
    creator flag compares the requester with the room's creator. *)
Theorem join_roster (now : Z) (st : State) (sid rid : jsstring) (sess : Session)
    (room : Room) (u p : value) :
  sockets st !! sid = Some sess ->
  rooms st !! rid = Some room ->
  RoomOk rid room ->
  snd (handle now st (JoinRoom sid rid u p))
  = [SocketEmit sid
       (RoomJoined (List.filter (notSid sid) (getParticipantsList room))
          (bool_decide (creator room = sid)));
     SocketTo sid rid (UserJoined sid (sanitizeUsername u) p)]
  /\ (getParticipant room sid = None ->
      List.filter (notSid sid) (getParticipantsList room)
      = getParticipantsList room).
Proof.
  intros Hs Hr Hok. split.
  - by apply (join_emits now st sid rid sess).
  - intros Hn. by apply (roster_whole rid).
Qed.

(** B joins the room that A created: the roster shows A alone. *)
Lemma join_roster_witness :
  snd (handle 3 Scenario.joinedA
         (JoinRoom Scenario.sB Scenario.roomR (VStr (lit "Bob")) (VStr (lit "p2"))))
  = [SocketEmit Scenario.sB (RoomJoined [Scenario.ann] false);
     SocketTo Scenario.sB Scenario.roomR
       (UserJoined Scenario.sB (lit "Bob") (VStr (lit "p2")))].
Proof.
  destruct (join_roster 3 Scenario.joinedA Scenario.sB Scenario.roomR
              (mkSession None None {[Scenario.sB]})
              (mkRoom Scenario.roomR Scenario.sA [(Scenario.sA, Scenario.ann)] 2)
              (VStr (lit "Bob")) (VStr (lit "p2")))
    as [Hout _].
  - vm_compute. reflexivity.
  - vm_compute. reflexivity.
  - split; simpl.
    + reflexivity.
    + apply NoDup_singleton.
    + repeat constructor.
  - rewrite Hout. vm_compute. reflexivity.
Defined.

Lemma members_join now st sid sess rid u p :
  sockets st !! sid = Some sess ->
  members (fst (handle now st (JoinRoom sid rid u p))) rid
  = if bool_decide (sid ∈ members st rid) then members st rid
    else members st rid ++ [sid].
Proof.
  intros Hs. simpl. rewrite Hs. unfold on_join_room, getOrCreateRoom, members.
  destruct (rooms st !! rid) as [room|] eqn:E; simpl; rewrite lookup_insert_eq;
    simpl.
  - destruct (bool_decide_reflect (sid ∈ List.map fst (participants room)))
      as [Hin|Hn]; rewrite list_elem_of_In in *.
    + by apply set_present.
    + rewrite set_absent, map_app by done. done.
  - done.
Qed.

Lemma sockets_join now st sid rid u p t :
  is_Some (sockets st !! t) ->
  is_Some (sockets (fst (handle now st (JoinRoom sid rid u p))) !! t).
Proof.
  intros Ht. simpl. destruct (sockets st !! sid) as [sess|] eqn:Es; [|done].
  unfold on_join_room. destruct (getOrCreateRoom _ _ _ _). simpl.
  destruct (decide (sid = t)) as [->|Hne].
  - rewrite lookup_insert_eq. eauto.
  - by rewrite lookup_insert_ne.
Qed.

Lemma members_joins now rid js : forall st,
  (forall j, In j js -> is_Some (sockets st !! fst j)) ->
  NoDup (members st rid ++ List.map fst js) ->
  members (run st (joins now rid js)) rid = members st rid ++ List.map fst js.
Proof.
  induction js as [|[sid [u p]] js IH]; intros st Hlive Hnd.
  - simpl. by rewrite app_nil_r.
  - change (run st (joins now rid ((sid, (u, p)) :: js)))
      with (run (fst (handle now st (JoinRoom sid rid u p))) (joins now rid js)).
    change (List.map fst ((sid, (u, p)) :: js)) with (sid :: List.map fst js)
      in *.
    destruct (Hlive (sid, (u, p)) (or_introl eq_refl)) as [sess Hs].
    assert (Hn : ~ In sid (members st rid)).
    { apply NoDup_app in Hnd as (_ & Hdis & _). intros Hin.
      apply (Hdis sid); [by apply list_elem_of_In|]. apply elem_of_cons. auto. }
    pose proof (members_join now st sid sess rid u p Hs) as Hm.
    rewrite bool_decide_eq_false_2 in Hm by (by rewrite list_elem_of_In).
    rewrite IH.
    + rewrite Hm, <- app_assoc. done.
    + intros j Hj. apply sockets_join. apply Hlive. by right.
    + rewrite Hm, <- app_assoc. done.
Qed.

Lemma creator_joins now rid js : forall st room,
  rooms st !! rid = Some room ->
  exists room', rooms (run st (joins now rid js)) !! rid = Some room'
                /\ creator room' = creator room.
Proof.
  induction js as [|[sid [u p]] js IH]; intros st room Hr; simpl; [eauto|].
  assert (Hstep : exists r1,
            rooms (fst (handle now st (JoinRoom sid rid u p))) !! rid = Some r1
            /\ creator r1 = creator room).
  { simpl. destruct (sockets st !! sid) as [sess|]; [|eauto].
    unfold on_join_room, getOrCreateRoom. rewrite Hr. simpl.
    rewrite lookup_insert_eq. eauto. }
  destruct Hstep as (r1 & Hr1 & Hc1).
  destruct (IH _ r1 Hr1) as (r' & Hr' & Hc'). exists r'. split; [done|congruence].
Qed.

(** X9. When distinct live sessions join a room that is not registered, one
    after the other, the room's roster is those sessions in order of arrival;
    the confirmation sent to each lists exactly the sessions that joined
    before it, in that order, and only the first is told it is the creator. *)
Theorem joins_in_order (now : Z) (st : State) (rid : jsstring)
    (js : list (jsstring * (value * value))) :
  WellFormed st ->
  rooms st !! rid = None ->
  NoDup (List.map fst js) ->
  (forall j, In j js -> is_Some (sockets st !! fst j)) ->
  members (run st (joins now rid js)) rid = List.map fst js
  /\ forall k j,
       js !! k = Some j ->
       exists others,
         snd (handle now (run st (joins now rid (take k js)))
                (JoinRoom (fst j) rid (fst (snd j)) (snd (snd j))))
         = [SocketEmit (fst j) (RoomJoined others (bool_decide (k = 0%nat)));
            SocketTo (fst j) rid
              (UserJoined (fst j) (sanitizeUsername (fst (snd j))) (snd (snd j)))]
         /\ rosterIds others = take k (List.map fst js).
Proof.
  intros Hwf Hr Hnd Hlive.
  assert (Hm0 : members st rid = []) by (unfold members; by rewrite Hr).
  split.
  - rewrite members_joins; rewrite ?Hm0; done.
  - intros k j Hk.
    set (pre := take k js).
    assert (Hpre : forall j', In j' pre -> In j' js).
    { intros j' Hj'. rewrite <- (take_drop k js). apply in_or_app. by left. }
    assert (Hsplit : List.map fst js
                     = List.map fst pre ++ fst j :: List.map fst (drop (S k) js)).
    { rewrite <- (take_drop_middle js k j Hk) at 1.
      rewrite map_app. done. }
    assert (Hndpre : NoDup (List.map fst pre) /\ ~ In (fst j) (List.map fst pre)).
    { rewrite Hsplit in Hnd. apply NoDup_app in Hnd as (H1 & H2 & H3).
      split; [done|]. intros Hin. apply (H2 (fst j)).
      - by apply list_elem_of_In.
      - apply elem_of_cons. auto. }
    destruct Hndpre as [Hndpre Hnotin].
    assert (Hmem : members (run st (joins now rid pre)) rid = List.map fst pre).
    { rewrite members_joins; rewrite ?Hm0; auto. }
    assert (Hwf' : WellFormed (run st (joins now rid pre)))
      by (by apply WellFormed_run).
    assert (Hsj : is_Some (sockets (run st (joins now rid pre)) !! fst j)).
    { assert (Hin : In j js).
      { apply list_elem_of_In. eapply list_elem_of_lookup_2; eauto. }
      clear -Hlive Hin. specialize (Hlive j Hin). revert st Hlive.
      induction pre as [|[s [u p]] pre IH]; intros st Hl; simpl; [done|].
      apply IH. by apply sockets_join. }
    destruct Hsj as [sessj Hsj].
    assert (Htake : take k (List.map fst js) = List.map fst pre).
    { unfold pre. by rewrite <- List.firstn_map. }
    destruct k as [|k].
    + (* the first joiner creates the room *)
      simpl in pre. subst pre. simpl in *.
      exists []. split; [|done].
      rewrite Hsj. unfold on_join_room, getOrCreateRoom. rewrite Hr. simpl.
      unfold isCreator, notSid; simpl.
      rewrite !bool_decide_eq_true_2 by done. done.
    + (* a later joiner finds the room of the first *)
      destruct js as [|j0 js']; [done|].
      assert (Hroom : exists room,
                rooms (run st (joins now rid pre)) !! rid = Some room
                /\ creator room = fst j0).
      { subst pre. simpl.
        destruct (Hlive j0 (or_introl eq_refl)) as [s0 Hs0].
        assert (H1 : exists r1,
                  rooms (fst (handle now st
                                (JoinRoom (fst j0) rid (fst (snd j0))
                                   (snd (snd j0))))) !! rid = Some r1
                  /\ creator r1 = fst j0).
        { simpl. rewrite Hs0. unfold on_join_room, getOrCreateRoom.
          rewrite Hr. simpl. rewrite lookup_insert_eq. eauto. }
        destruct H1 as (r1 & Hr1 & Hc1).
        destruct (creator_joins now rid (take k js') _ r1 Hr1)
          as (r' & Hr' & Hc').
        exists r'. split; [exact Hr'|congruence]. }
      destruct Hroom as (room & Hroom & Hcr).
      pose proof (wf_rooms _ Hwf' rid room Hroom) as Hok.
      pose proof (join_emits now _ (fst j) rid sessj room
                    (fst (snd j)) (snd (snd j)) Hsj Hroom Hok) as Hout.
      pose proof (roster_whole rid room (fst j) Hok) as Hfull.
      exists (List.filter (notSid (fst j)) (getParticipantsList room)).
      split.
      * rewrite Hout. do 3 f_equal.
        rewrite (bool_decide_eq_false_2 (S k = 0%nat)) by lia.
        apply bool_decide_eq_false_2. rewrite Hcr. intros Heq.
        apply Hnotin. subst pre. simpl. left. done.
      * assert (Hkeys : keysOf room = List.map fst pre).
        { unfold members in Hmem. rewrite Hroom in Hmem. exact Hmem. }
        rewrite Hfull.
        -- unfold rosterIds. rewrite getParticipantsList_ids, Htake, <- Hkeys.
           unfold keysOf. apply map_ext_Forall.
           exact (RoomOk_keys _ _ Hok).
        -- apply get_None. fold (keysOf room). by rewrite Hkeys.
Qed.

(** A then B join room R from the state in which both are connected. *)
Lemma joins_in_order_witness :
  members (run Scenario.connected
             (joins 2 Scenario.roomR
                [(Scenario.sA, (VStr (lit "Ann"), VStr (lit "p1")));
                 (Scenario.sB, (VStr (lit "Bob"), VStr (lit "p2")))]))
    Scenario.roomR
  = [Scenario.sA; Scenario.sB].
Proof.
  apply (joins_in_order 2 Scenario.connected Scenario.roomR
           [(Scenario.sA, (VStr (lit "Ann"), VStr (lit "p1")));
            (Scenario.sB, (VStr (lit "Bob"), VStr (lit "p2")))]).
  - apply (WellFormed_run
             [(0%Z, Connect Scenario.sA); (1%Z, Connect Scenario.sB)] init).
    apply WellFormed_init.
  - vm_compute. reflexivity.
  - simpl. apply NoDup_cons. split; [|apply NoDup_singleton].
    intros H. apply list_elem_of_singleton in H. discriminate H.
  - intros j [<-|[<-|[]]]; vm_compute; eauto.
Defined.

End JoinFacts.

(** ** Chat, mute, kick and departure *)

Module RelayFacts.
Import RoomManager Server Wellformed OMapFacts OMapOrder ServerFacts
  SanitizeMore.

Lemma trimStart_spaces s : forallb is_space s = true -> trimStart s = [].
Proof.
  induction s as [|c s IH]; simpl; [done|].
  rewrite andb_true_iff. intros [-> Hs]. auto.
Qed.

Lemma sanitizeMessage_spaces s :
  forallb is_space s = true -> sanitizeMessage (VStr s) = [].
Proof.
  intros Hs. unfold sanitizeMessage. destruct s as [|c s]; [done|].
  cbn [truthy is_string negb orb]. unfold trim.
  by rewrite (trimStart_spaces _ Hs).
Qed.

Lemma sanitizeMessage_nonstring v : is_string v = false -> sanitizeMessage v = [].
Proof.
  unfold sanitizeMessage. destruct v; try done; simpl.
  - by destruct (negb b).
  - by destruct (negb _).
Qed.

(** X10. A chat message never changes the relay's state.  From a session
    bound to a room, a text that is not empty once sanitized is broadcast once
    to that room (the sender not excluded) under the session's recorded name,
    with the relay's clock as timestamp; a message from a session bound to no
    room, a payload that is not a string and a text of whitespace only emit
    nothing. *)
Theorem chat_broadcast (now : Z) (st : State) (sid : jsstring) (sess : Session)
    (message : value) :
  sockets st !! sid = Some sess ->
  fst (handle now st (SendMessage sid message)) = st
  /\ snd (handle now st (SendMessage sid message))
     = match joinedRoom sess, sanitizeMessage message with
       | Some rid, c :: text =>
           [IoTo rid (ReceiveMessage (currentUsername sess) (c :: text) now sid)]
       | _, _ => []
       end
  /\ (is_string message = false ->
      snd (handle now st (SendMessage sid message)) = [])
  /\ (forall s, message = VStr s -> forallb is_space s = true ->
      snd (handle now st (SendMessage sid message)) = []).
Proof.
  intros Hs.
  assert (Hout : snd (handle now st (SendMessage sid message))
     = match joinedRoom sess, sanitizeMessage message with
       | Some rid, c :: text =>
           [IoTo rid (ReceiveMessage (currentUsername sess) (c :: text) now sid)]
       | _, _ => []
       end).
  { simpl. rewrite Hs. unfold on_send_message.
    destruct (joinedRoom sess); [|done].
    by destruct (sanitizeMessage message). }
  split; [|split; [exact Hout|split]].
  - simpl. rewrite Hs. unfold on_send_message.
    destruct (joinedRoom sess); [|done]. by destruct (negb _).
  - intros Hn. rewrite Hout, sanitizeMessage_nonstring by done.
    by destruct (joinedRoom sess).
  - intros s -> Hsp. rewrite Hout, sanitizeMessage_spaces by done.
    by destruct (joinedRoom sess).
Qed.

(** "Hello" from A in room R goes to room R; a blank text goes nowhere. *)
Lemma chat_broadcast_witness :
  snd (handle 5 Scenario.joinedAB (SendMessage Scenario.sA (VStr (lit " Hello "))))
  = [IoTo Scenario.roomR
       (ReceiveMessage (Some (lit "Ann")) (lit "Hello") 5 Scenario.sA)]
  /\ snd (handle 5 Scenario.joinedAB (SendMessage Scenario.sA (VStr (lit "   "))))
     = [].
Proof.
  split.
  - destruct (chat_broadcast 5 Scenario.joinedAB Scenario.sA
                (mkSession (Some Scenario.roomR) (Some (lit "Ann"))
                   ({[Scenario.roomR]} ∪ {[Scenario.sA]}))
                (VStr (lit " Hello "))) as (_ & Hout & _).
    + vm_compute. reflexivity.
    + rewrite Hout. vm_compute. reflexivity.
  - destruct (chat_broadcast 5 Scenario.joinedAB Scenario.sA
                (mkSession (Some Scenario.roomR) (Some (lit "Ann"))
                   ({[Scenario.roomR]} ∪ {[Scenario.sA]}))
                (VStr (lit "   "))) as (_ & _ & _ & Hblank).
    + vm_compute. reflexivity.
    + apply (Hblank (lit "   ")); [reflexivity|vm_compute; reflexivity].
Defined.

Lemma lookup_alter_leave (socks : gmap jsstring Session) rid t s :
  alter (leave rid) t socks !! s
  = if decide (t = s) then leave rid <$> socks !! s else socks !! s.
Proof. rewrite lookup_alter. destruct (decide (t = s)); by subst. Qed.

Lemma kick_step now st sid t rid sess room :
  sockets st !! sid = Some sess ->
  joinedRoom sess = Some rid ->
  rooms st !! rid = Some room ->
  creator room = sid ->
  t <> sid ->
  handle now st (KickUser sid t)
  = (mkState (<[rid := removeParticipant room t]> (rooms st))
       (alter (leave rid) t (sockets st)),
     [IoTo t YouWereKicked; SocketTo sid rid (UserKicked t)]).
Proof.
  intros Hs Hj Hr Hc Hne.
  simpl. rewrite Hs. unfold on_kick_user, getRoom. rewrite Hj, Hr.
  unfold isCreator. rewrite bool_decide_eq_true_2 by done. simpl.
  by rewrite bool_decide_eq_false_2.
Qed.

(** X11. A kick by the creator of the room it is bound to, aimed at another
    identity, removes that identity's entry from the room and keeps every
    other entry, room and session context; it sends "you were kicked" to the
    socket.io room named by the target's id and "user kicked" to the room's
    broadcast group, and only then takes the target's socket out of that
    group.  So the target receives the first exactly when its socket is in the
    room of its own id and the second exactly when it was in the group: a
    target that is in both receives both.  This happens whether or not the
    target was a participant of the room. *)
Theorem kick_by_creator (now : Z) (st : State) (sid t rid : jsstring)
    (sess : Session) (room : Room) :
  sockets st !! sid = Some sess ->
  joinedRoom sess = Some rid ->
  rooms st !! rid = Some room ->
  creator room = sid ->
  t <> sid ->
  let st' := fst (handle now st (KickUser sid t)) in
  snd (handle now st (KickUser sid t))
  = [IoTo t YouWereKicked; SocketTo sid rid (UserKicked t)]
  /\ rooms st' !! rid = Some (removeParticipant room t)
  /\ getParticipant (removeParticipant room t) t = None
  /\ (forall s, s <> t ->
        getParticipant (removeParticipant room t) s = getParticipant room s)
  /\ (forall rid', rid' <> rid -> rooms st' !! rid' = rooms st !! rid')
  /\ (forall s, s <> t -> sockets st' !! s = sockets st !! s)
  /\ sockets st' !! t = leave rid <$> sockets st !! t
  /\ receives st t (SocketTo sid rid (UserKicked t)) = inRoom st t rid
  /\ inRoom st' t rid = false
  /\ receives st t (IoTo t YouWereKicked) = inRoom st t t
  /\ (forall sesst,
        sockets st !! t = Some sesst ->
        t ∈ socketRooms sesst -> rid ∈ socketRooms sesst ->
        receives st t (IoTo t YouWereKicked) = true
        /\ receives st t (SocketTo sid rid (UserKicked t)) = true).
Proof.
  intros Hs Hj Hr Hc Hne st'.
  subst st'. rewrite (kick_step now st sid t rid sess room) by done. simpl.
  split; [done|]. split; [apply lookup_insert_eq|].
  split; [apply getParticipant_remove_eq|].
  split; [intros s Hst; by apply getParticipant_remove_ne|].
  split; [intros rid' Hr'; by rewrite lookup_insert_ne|].
  split; [intros s Hst; rewrite lookup_alter_leave; by rewrite decide_False|].
  split; [rewrite lookup_alter_leave; by rewrite decide_True|].
  split.
  { unfold receives. rewrite bool_decide_eq_false_2 by done.
    apply andb_true_r. }
  split.
  { unfold inRoom. simpl. rewrite lookup_alter_leave, decide_True by done.
    destruct (sockets st !! t) as [s0|]; simpl; [|done].
    apply bool_decide_eq_false_2. intros Hin.
    apply elem_of_difference in Hin as [_ Hin]. apply Hin.
    by apply elem_of_singleton. }
  split; [done|].
  intros sesst Ht Hown Hgrp. unfold inRoom. rewrite Ht.
  rewrite !bool_decide_eq_true_2 by done.
  by rewrite bool_decide_eq_false_2.
Qed.

(** A, the creator of room R, kicks B, who receives both notifications. *)
Lemma kick_by_creator_witness :
  snd (handle 5 Scenario.joinedAB (KickUser Scenario.sA Scenario.sB))
  = [IoTo Scenario.sB YouWereKicked;
     SocketTo Scenario.sA Scenario.roomR (UserKicked Scenario.sB)]
  /\ rooms (fst (handle 5 Scenario.joinedAB (KickUser Scenario.sA Scenario.sB)))
       !! Scenario.roomR
     = Some (removeParticipant Scenario.roomAB Scenario.sB)
  /\ receives Scenario.joinedAB Scenario.sB (IoTo Scenario.sB YouWereKicked)
     = true
  /\ receives Scenario.joinedAB Scenario.sB
       (SocketTo Scenario.sA Scenario.roomR (UserKicked Scenario.sB))
     = true.
Proof.
  destruct (kick_by_creator 5 Scenario.joinedAB Scenario.sA Scenario.sB
              Scenario.roomR
              (mkSession (Some Scenario.roomR) (Some (lit "Ann"))
                 ({[Scenario.roomR]} ∪ {[Scenario.sA]}))
              Scenario.roomAB)
    as (Hout & Hroom & _ & _ & _ & _ & _ & _ & _ & _ & Hboth).
  - vm_compute. reflexivity.
  - vm_compute. reflexivity.
  - vm_compute. reflexivity.
  - reflexivity.
  - vm_compute. discriminate.
  - split; [exact Hout|]. split; [exact Hroom|].
    apply (Hboth (mkSession (Some Scenario.roomR) (Some (lit "Bob"))
                    ({[Scenario.roomR]} ∪ {[Scenario.sB]}))).
    + vm_compute. reflexivity.
    + vm_compute. reflexivity.
    + vm_compute. reflexivity.
Defined.

Lemma removeParticipant_twice r t :
  removeParticipant (removeParticipant r t) t = removeParticipant r t.
Proof.
  unfold removeParticipant. simpl. f_equal.
  apply delete_absent. intros Hin. apply delete_In in Hin. tauto.
Qed.

(** X12. A kick does not end the target's session: it stays bound to the
    room.  After being kicked its chat messages are still broadcast to the
    room, and its disconnect still announces its departure to the room, whose
    roster it no longer changes. *)
Theorem kicked_session_stays_bound (now : Z) (st : State) (sid t rid : jsstring)
    (sess sesst : Session) (room : Room) :
  sockets st !! sid = Some sess ->
  joinedRoom sess = Some rid ->
  rooms st !! rid = Some room ->
  creator room = sid ->
  is_Some (getParticipant room sid) ->
  t <> sid ->
  sockets st !! t = Some sesst ->
  joinedRoom sesst = Some rid ->
  let st' := fst (handle now st (KickUser sid t)) in
  (forall now' message c text,
     sanitizeMessage message = c :: text ->
     handle now' st' (SendMessage t message)
     = (st', [IoTo rid (ReceiveMessage (currentUsername sesst) (c :: text)
                          now' t)]))
  /\ (forall now',
        snd (handle now' st' (Disconnect t)) = [SocketTo t rid (UserLeft t)]
        /\ rooms (fst (handle now' st' (Disconnect t))) !! rid
           = Some (removeParticipant room t)).
Proof.
  intros Hs Hj Hr Hc Hin Hne Ht Hjt st'.
  subst st'. rewrite (kick_step now st sid t rid sess room) by done. simpl.
  assert (Hlook : alter (leave rid) t (sockets st) !! t = Some (leave rid sesst)).
  { rewrite lookup_alter_leave, decide_True, Ht by done. done. }
  assert (Hjl : joinedRoom (leave rid sesst) = Some rid) by exact Hjt.
  split.
  - intros now' message c text Hm. rewrite Hlook.
    unfold on_send_message. rewrite Hjl, Hm. done.
  - intros now'. rewrite Hlook. unfold on_disconnect, getRoom, removeRoom.
    rewrite Hjl. simpl. rewrite lookup_insert_eq, removeParticipant_twice.
    assert (He : isEmpty (removeParticipant room t) = false).
    { apply (getParticipant_nonempty _ sid).
      rewrite getParticipant_remove_ne by done. done. }
    rewrite He. simpl. split; [done|]. apply lookup_insert_eq.
Qed.

(** B, kicked from room R by A, still writes to R and still announces that
    it leaves. *)
Lemma kicked_session_stays_bound_witness :
  snd (handle 6 (fst (handle 5 Scenario.joinedAB
                        (KickUser Scenario.sA Scenario.sB)))
         (SendMessage Scenario.sB (VStr (lit "still here"))))
  = [IoTo Scenario.roomR
       (ReceiveMessage (Some (lit "Bob")) (lit "still here") 6 Scenario.sB)]
  /\ snd (handle 7 (fst (handle 5 Scenario.joinedAB
                           (KickUser Scenario.sA Scenario.sB)))
            (Disconnect Scenario.sB))
     = [SocketTo Scenario.sB Scenario.roomR (UserLeft Scenario.sB)].
Proof.
  destruct (kicked_session_stays_bound 5 Scenario.joinedAB Scenario.sA
              Scenario.sB Scenario.roomR
              (mkSession (Some Scenario.roomR) (Some (lit "Ann"))
                 ({[Scenario.roomR]} ∪ {[Scenario.sA]}))
              (mkSession (Some Scenario.roomR) (Some (lit "Bob"))
                 ({[Scenario.roomR]} ∪ {[Scenario.sB]}))
              Scenario.roomAB)
    as [Hchat Hleave].
  - vm_compute. reflexivity.
  - vm_compute. reflexivity.
  - vm_compute. reflexivity.
  - reflexivity.
  - vm_compute. eauto.
  - vm_compute. discriminate.
  - vm_compute. reflexivity.
  - vm_compute. reflexivity.
  - split.
    + rewrite (Hchat 6%Z (VStr (lit "still here")) 115 (lit "till here"));
        [reflexivity|vm_compute; reflexivity].
    + apply Hleave.
Defined.

(** X13. A mute request from a participant of the room its session is bound
    to stores the given flag in that participant's entry, keeps its name,
    media tag, identity and place in the roster, leaves every other entry,
    room and session as it is, and tells the others of the room; from a
    session that is not a participant of its room it does nothing. *)
Theorem mute_touches_own_entry (now : Z) (st : State) (sid rid : jsstring)
    (sess : Session) (room : Room) (flag : value) :
  sockets st !! sid = Some sess ->
  joinedRoom sess = Some rid ->
  rooms st !! rid = Some room ->
  match getParticipant room sid with
  | Some p =>
      exists room',
        handle now st (ToggleMute sid flag)
        = (mkState (<[rid := room']> (rooms st)) (sockets st),
           [SocketTo sid rid (UserMuted sid flag)])
        /\ getParticipant room' sid
           = Some (mkParticipant (socketId p) (username p) (peerId p) flag)
        /\ (forall t, t <> sid -> getParticipant room' t = getParticipant room t)
        /\ keysOf room' = keysOf room
        /\ creator room' = creator room
  | None => handle now st (ToggleMute sid flag) = (st, [])
  end.
Proof.
  intros Hs Hj Hr. simpl. rewrite Hs. unfold on_toggle_mute, getRoom.
  rewrite Hj, Hr. destruct (getParticipant room sid) as [p|] eqn:Ep; [|done].
  eexists. split; [reflexivity|]. unfold getParticipant. simpl.
  split; [apply get_set_eq|].
  split; [intros t Ht; by apply get_set_ne|].
  split; [|done]. unfold keysOf. simpl.
  apply set_present, get_Some_In. unfold getParticipant in Ep. eauto.
Qed.

(** B mutes itself in room R. *)
Lemma mute_touches_own_entry_witness :
  snd (handle 5 Scenario.joinedAB (ToggleMute Scenario.sB (VBool true)))
  = [SocketTo Scenario.sB Scenario.roomR (UserMuted Scenario.sB (VBool true))].
Proof.
  pose proof (mute_touches_own_entry 5 Scenario.joinedAB Scenario.sB
                Scenario.roomR
                (mkSession (Some Scenario.roomR) (Some (lit "Bob"))
                   ({[Scenario.roomR]} ∪ {[Scenario.sB]}))
                Scenario.roomAB (VBool true)) as H.
  cbv beta in H.
  assert (Hp : getParticipant Scenario.roomAB Scenario.sB = Some Scenario.bob)
    by (vm_compute; reflexivity).
  rewrite Hp in H.
  destruct H as (room' & Hh & _).
  - vm_compute. reflexivity.
  - vm_compute. reflexivity.
  - vm_compute. reflexivity.
  - rewrite Hh. reflexivity.
Defined.

(** X14. A disconnect removes the session and touches no room other than the
    one the session is bound to: an entry the session left in another room by
    joining a second room stays there. *)
Theorem disconnect_is_local (now : Z) (st : State) (sid : jsstring)
    (sess : Session) :
  sockets st !! sid = Some sess ->
  sockets (fst (handle now st (Disconnect sid))) = base.delete sid (sockets st)
  /\ forall rid,
       joinedRoom sess <> Some rid ->
       rooms (fst (handle now st (Disconnect sid))) !! rid = rooms st !! rid.
Proof.
  intros Hs. simpl. rewrite Hs. unfold on_disconnect, getRoom, removeRoom.
  destruct (joinedRoom sess) as [r0|]; [|done].
  destruct (rooms st !! r0) as [room0|]; [|done]. simpl.
  split; [done|]. intros rid Hne.
  assert (r0 <> rid) by congruence.
  destruct (isEmpty _);
    by rewrite ?lookup_delete_ne, ?lookup_insert_ne.
Qed.

(** A joins room R, then room Q, then disconnects: room R keeps A's entry. *)
Lemma disconnect_is_local_witness :
  rooms (fst (handle 4 Scenario.roamed (Disconnect Scenario.sA))) !! Scenario.roomR
  = rooms Scenario.roamed !! Scenario.roomR
  /\ members Scenario.roamed Scenario.roomR = [Scenario.sA].
Proof.
  split; [|vm_compute; reflexivity].
  apply (disconnect_is_local 4 Scenario.roamed Scenario.sA
           (mkSession (Some Scenario.roomQ) (Some (lit "Ann"))
              ({[Scenario.roomQ]} ∪ ({[Scenario.roomR]} ∪ {[Scenario.sA]})))).
  - vm_compute. reflexivity.
  - vm_compute. discriminate.
Defined.

Lemma gone_stays now st ev c :
  sockets st !! c = None -> ev <> Connect c ->
  sockets (fst (handle now st ev)) !! c = None.
Proof.
  intros Hc Hev.
  destruct ev as [sid|sid rid0 u p|sid to o|sid to a|sid to cd|sid msg|sid fl
                 |sid t|sid]; simpl.
  { unfold on_connection. destruct (sockets st !! sid) eqn:E; simpl; [done|].
    rewrite lookup_insert_ne; [done|congruence]. }
  all: destruct (sockets st !! sid) as [sess0|] eqn:Es; [|done]; try done.
  - unfold on_join_room. destruct (getOrCreateRoom _ _ _ _). simpl.
    rewrite lookup_insert_ne; [done|congruence].
  - unfold on_send_message. destruct (joinedRoom sess0); [|done].
    by destruct (negb _).
  - unfold on_toggle_mute, getRoom. destruct (joinedRoom sess0) as [r0|]; [|done].
    destruct (rooms st !! r0) as [room0|]; [|done].
    by destruct (getParticipant room0 sid).
  - unfold on_kick_user, getRoom. destruct (joinedRoom sess0) as [r0|]; [|done].
    destruct (rooms st !! r0) as [room0|]; [|done].
    destruct (negb _); [done|]. destruct (bool_decide _); [done|]. simpl.
    rewrite lookup_alter_leave. rewrite Hc. by destruct (decide _).
  - assert (Hd : base.delete sid (sockets st) !! c = None).
    { rewrite lookup_delete. by case_decide. }
    unfold on_disconnect, getRoom. destruct (joinedRoom sess0) as [r0|]; [|done].
    by destruct (rooms st !! r0).
Qed.

Lemma gone_along c evs : forall st,
  sockets st !! c = None ->
  Forall (fun e => snd e <> Connect c) evs ->
  sockets (run st evs) !! c = None.
Proof.
  induction evs as [|[now ev] evs IH]; intros st Hc Hf; simpl; [done|].
  inversion Hf; subst. apply IH; [|done]. by apply gone_stays.
Qed.

(** X15. There is no succession.  Once the creator of a room has gone, and for
    as long as the room stays registered and no connection takes the creator's
    id, every kick request made in the room is refused with the creator-only
    error and changes nothing. *)
Theorem no_succession (st : State) (rid : jsstring) (room : Room)
    (evs : list (Z * Event)) (now : Z) (sid t : jsstring) (sess : Session) :
  rooms st !! rid = Some room ->
  sockets st !! creator room = None ->
  Forall (fun e => snd e <> Connect (creator room)) evs ->
  registered_along rid st evs ->
  sockets (run st evs) !! sid = Some sess ->
  joinedRoom sess = Some rid ->
  handle now (run st evs) (KickUser sid t)
  = (run st evs,
     [SocketEmit sid (Error (lit "Only the room creator can kick users"))]).
Proof.
  intros Hr Hgone Hf Hal Hs Hj.
  destruct (creator_along rid evs st room Hal Hr) as (r' & Hr' & Hc').
  pose proof (gone_along _ evs st Hgone Hf) as Hg.
  simpl. rewrite Hs. unfold on_kick_user, getRoom. rewrite Hj, Hr'.
  unfold isCreator. rewrite bool_decide_eq_false_2; [done|].
  rewrite Hc'. intros Heq. rewrite Heq in Hg. congruence.
Qed.

(** A, who created room R, has left; B cannot kick the newcomer C. *)
Lemma no_succession_witness :
  handle 9 Scenario.orphaned (KickUser Scenario.sB Scenario.sC)
  = (Scenario.orphaned,
     [SocketEmit Scenario.sB
        (Error (lit "Only the room creator can kick users"))]).
Proof.
  apply (no_succession
           (fst (handle 4 Scenario.joinedAB (Disconnect Scenario.sA)))
           Scenario.roomR
           (removeParticipant Scenario.roomAB Scenario.sA)
           [(5%Z, Connect Scenario.sC);
            (6%Z, JoinRoom Scenario.sC Scenario.roomR (VStr (lit "Cy"))
                    (VStr (lit "p3")))]
           9 Scenario.sB Scenario.sC
           (mkSession (Some Scenario.roomR) (Some (lit "Bob"))
              ({[Scenario.roomR]} ∪ {[Scenario.sB]}))).
  - vm_compute. reflexivity.
  - vm_compute. reflexivity.
  - repeat constructor; simpl; discriminate.
  - cbn [registered_along].
    split; [vm_compute; eauto|]. split; [vm_compute; eauto|].
    split; [vm_compute; eauto|exact I].
  - vm_compute. reflexivity.
  - vm_compute. reflexivity.
Defined.

End RelayFacts.

(** ** The mesh as the client sees it *)

Module MeshFacts.
Import WebRTC Mesh.

Lemma receive_link m s remote p :
  peers m !! remote = Some p ->
  peers (receive m s) !! remote
  = Some (mkPeer (initiator p) (signalled p ++ handedTo remote [s])).
Proof.
  intros Hp. destruct s as [from v|from v|from v]; simpl.
  - unfold handleOffer, createPeerConnection.
    destruct (peers m !! from) as [q|] eqn:Eq; simpl.
    + rewrite Hp, app_nil_r. by destruct p.
    + rewrite !lookup_insert_ne by congruence.
      rewrite Hp, app_nil_r. by destruct p.
  - unfold handleAnswer. destruct (peers m !! from) as [q|] eqn:Eq; simpl.
    + destruct (bool_decide_reflect (from = remote)) as [->|Hne].
      * rewrite lookup_insert_eq. by simplify_eq.
      * rewrite lookup_insert_ne by done. rewrite Hp, app_nil_r. by destruct p.
    + rewrite bool_decide_eq_false_2 by congruence.
      rewrite Hp, app_nil_r. by destruct p.
  - unfold handleICECandidate. destruct (peers m !! from) as [q|] eqn:Eq; simpl.
    + destruct (bool_decide_reflect (from = remote)) as [->|Hne].
      * rewrite lookup_insert_eq. by simplify_eq.
      * rewrite lookup_insert_ne by done. rewrite Hp, app_nil_r. by destruct p.
    + rewrite bool_decide_eq_false_2 by congruence.
      rewrite Hp, app_nil_r. by destruct p.
Qed.

Lemma handedTo_cons remote s ss :
  handedTo remote (s :: ss) = handedTo remote [s] ++ handedTo remote ss.
Proof.
  destruct s as [from v|from v|from v]; simpl; try done;
    by destruct (bool_decide _).
Qed.

Lemma receiveAll_link ss : forall m remote p,
  peers m !! remote = Some p ->
  peers (receiveAll m ss) !! remote
  = Some (mkPeer (initiator p) (signalled p ++ handedTo remote ss)).
Proof.
  induction ss as [|s ss IH]; intros m remote p Hp.
  - simpl. rewrite app_nil_r. by destruct p.
  - change (receiveAll m (s :: ss)) with (receiveAll (receive m s) ss).
    rewrite (IH _ remote _ (receive_link m s remote p Hp)).
    cbn [initiator signalled].
    by rewrite (handedTo_cons remote s ss), app_assoc.
Qed.

Lemma receive_no_link m s remote :
  peers m !! remote = None ->
  (forall o, s <> GotOffer remote o) ->
  peers (receive m s) !! remote = None.
Proof.
  intros Hp Hs. destruct s as [from v|from v|from v]; simpl.
  - assert (from <> remote) by (intros ->; by eapply Hs).
    unfold handleOffer, createPeerConnection.
    destruct (peers m !! from) as [q|]; simpl; [done|].
    by rewrite !lookup_insert_ne.
  - unfold handleAnswer. destruct (peers m !! from) as [q|] eqn:Eq; simpl;
      [|done].
    rewrite lookup_insert_ne; [done|congruence].
  - unfold handleICECandidate. destruct (peers m !! from) as [q|] eqn:Eq; simpl;
      [|done].
    rewrite lookup_insert_ne; [done|congruence].
Qed.

Lemma receiveAll_no_link ss : forall m remote,
  peers m !! remote = None ->
  Forall (fun s => forall o, s <> GotOffer remote o) ss ->
  peers (receiveAll m ss) !! remote = None.
Proof.
  induction ss as [|s ss IH]; intros m remote Hp Hf; [done|].
  inversion Hf; subst.
  change (receiveAll m (s :: ss)) with (receiveAll (receive m s) ss).
  apply IH; [|done]. by apply receive_no_link.
Qed.

Lemma receiveAll_app m ss1 ss2 :
  receiveAll m (ss1 ++ ss2) = receiveAll (receiveAll m ss1) ss2.
Proof. apply fold_left_app. Qed.

(** X16. An existing link is handed, in the order of their arrival, exactly
    the answers and candidates that the relay delivers from its remote
    identity: what other identities send does not reach it, an offer for it is
    ignored, and its role never changes. *)
Theorem link_log_in_order (m : Manager) (remote : jsstring) (p : Peer)
    (ss : list Signal) :
  peers m !! remote = Some p ->
  peers (receiveAll m ss) !! remote
  = Some (mkPeer (initiator p) (signalled p ++ handedTo remote ss)).
Proof.
  revert m p. induction ss as [|s ss IH]; intros m p Hp.
  - simpl. rewrite app_nil_r. by destruct p.
  - change (receiveAll m (s :: ss)) with (receiveAll (receive m s) ss).
    rewrite (IH _ _ (receive_link m s remote p Hp)).
    cbn [initiator signalled].
    by rewrite (handedTo_cons remote s ss), app_assoc.
Qed.

(** X17. Where no link to an identity exists, everything it sends before its
    first offer is dropped; that offer creates the link as responder, and the
    link is handed the offer and then the answers and candidates that follow
    from that identity, in order. *)
Theorem link_starts_at_offer (m : Manager) (remote : jsstring) (offer : value)
    (before after : list Signal) :
  peers m !! remote = None ->
  Forall (fun s => forall o, s <> GotOffer remote o) before ->
  peers (receiveAll m before) !! remote = None
  /\ peers (receiveAll m (before ++ GotOffer remote offer :: after)) !! remote
     = Some (mkPeer false (offer :: handedTo remote after)).
Proof.
  intros Hp Hf.
  pose proof (receiveAll_no_link before m remote Hp Hf) as Hn.
  split; [exact Hn|].
  rewrite receiveAll_app.
  change (receiveAll (receiveAll m before) (GotOffer remote offer :: after))
    with (receiveAll (handleOffer (receiveAll m before) remote offer) after).
  rewrite (receiveAll_link after _ remote (mkPeer false [offer])); [done|].
  unfold handleOffer, createPeerConnection. rewrite Hn. simpl.
  apply lookup_insert_eq.
Qed.

(** The link to B is handed B's answer and candidate, not what A sends. *)
Lemma link_log_in_order_witness :
  peers (receiveAll Scenario.linked
           [GotCandidate Scenario.sA (VObj 1); GotAnswer Scenario.sB (VObj 2);
            GotOffer Scenario.sB (VObj 3); GotCandidate Scenario.sB (VObj 4)])
    !! Scenario.sB
  = Some (mkPeer true [VObj 2; VObj 4]).
Proof.
  rewrite (link_log_in_order Scenario.linked Scenario.sB (mkPeer true [])).
  - vm_compute. reflexivity.
  - vm_compute. reflexivity.
Defined.

(** B's candidate comes before B's offer: the link has the offer and what
    follows it. *)
Lemma link_starts_at_offer_witness :
  peers (receiveAll Scenario.fresh
           ([GotCandidate Scenario.sB (VObj 1)]
            ++ GotOffer Scenario.sB (VObj 2)
               :: [GotCandidate Scenario.sB (VObj 3)])) !! Scenario.sB
  = Some (mkPeer false [VObj 2; VObj 3]).
Proof.
  destruct (link_starts_at_offer Scenario.fresh Scenario.sB (VObj 2)
              [GotCandidate Scenario.sB (VObj 1)]
              [GotCandidate Scenario.sB (VObj 3)]) as [_ H].
  - vm_compute. reflexivity.
  - repeat constructor. discriminate.
  - rewrite H. vm_compute. reflexivity.
Defined.

(** X18. Removing the link to one identity leaves the links and the audio
    elements of every other identity as they are and names no other identity
    in its effects; an offer that the removed identity sends afterwards opens
    a new link from scratch, as responder. *)
Theorem removePeer_is_isolated (m : Manager) (sid : jsstring) :
  (forall t, t <> sid ->
     peers (fst (removePeer m sid)) !! t = peers m !! t
     /\ (t ∈ audioElements (fst (removePeer m sid)) <-> t ∈ audioElements m))
  /\ Forall (fun e => e = PeerDestroyed sid \/ e = AudioRemoved sid
                      \/ e = PeerDisconnected sid)
       (snd (removePeer m sid))
  /\ forall offer,
       peers (handleOffer (fst (removePeer m sid)) sid offer) !! sid
       = Some (mkPeer false [offer]).
Proof.
  split; [|split].
  - intros t Ht. unfold removePeer.
    destruct (peers m !! sid) as [p|] eqn:Ep;
      destruct (bool_decide_reflect (sid ∈ audioElements m)) as [Hin|Hin];
      simpl; rewrite ?lookup_delete_ne by done; (split; [done|]);
      try done; rewrite elem_of_difference, elem_of_singleton; tauto.
  - unfold removePeer.
    destruct (peers m !! sid); destruct (bool_decide _);
      destruct (peerDisconnected m); simpl;
      repeat (apply List.Forall_cons; [naive_solver|]); apply List.Forall_nil.
  - intros offer.
    assert (Hn : peers (fst (removePeer m sid)) !! sid = None).
    { unfold removePeer. destruct (peers m !! sid) eqn:E;
        destruct (bool_decide _); simpl; try done; apply lookup_delete_eq. }
    unfold handleOffer, createPeerConnection. rewrite Hn. simpl.
    apply lookup_insert_eq.
Qed.

Lemma handleRoomJoined_cons m sid roster :
  handleRoomJoined m (sid :: roster)
  = handleRoomJoined (fst (createPeerConnection m sid true)) roster.
Proof. reflexivity. Qed.

Lemma createPeerConnection_lookup m sid b t :
  peers (fst (createPeerConnection m sid b)) !! t
  = match peers m !! t with
    | Some p => Some p
    | None => if bool_decide (t = sid) then Some (mkPeer b []) else None
    end.
Proof.
  unfold createPeerConnection.
  destruct (peers m !! sid) as [q|] eqn:Eq; simpl.
  - destruct (peers m !! t) eqn:Et; [done|].
    rewrite bool_decide_eq_false_2; [done|congruence].
  - destruct (bool_decide_reflect (t = sid)) as [->|Hne].
    + by rewrite lookup_insert_eq, Eq.
    + rewrite lookup_insert_ne by done. by destruct (peers m !! t).
Qed.

(** X19. On the join confirmation the page opens one link per roster entry,
    as initiator: afterwards every identity of the roster has a link, an
    identity that had one keeps it untouched, an identity listed twice gets
    one link only, and no other link appears.  An offer that a roster member
    sends afterwards does not disturb its link. *)
Theorem roster_opens_links (m : Manager) (roster : list jsstring) :
  (forall t,
     peers (handleRoomJoined m roster) !! t
     = match peers m !! t with
       | Some p => Some p
       | None => if bool_decide (t ∈ roster) then Some (mkPeer true []) else None
       end)
  /\ forall t offer,
       t ∈ roster ->
       handleOffer (handleRoomJoined m roster) t offer
       = handleRoomJoined m roster.
Proof.
  assert (Hl : forall roster m t,
     peers (handleRoomJoined m roster) !! t
     = match peers m !! t with
       | Some p => Some p
       | None => if bool_decide (t ∈ roster) then Some (mkPeer true []) else None
       end).
  { clear. induction roster as [|sid roster IH]; intros m t.
    - simpl. by destruct (peers m !! t).
    - rewrite handleRoomJoined_cons, IH, createPeerConnection_lookup.
      destruct (peers m !! t) as [p|]; [done|].
      destruct (bool_decide_reflect (t = sid)) as [->|Hne].
      + rewrite bool_decide_eq_true_2; [done|]. apply elem_of_cons. auto.
      + destruct (bool_decide_reflect (t ∈ roster)) as [Hin|Hn].
        * rewrite bool_decide_eq_true_2; [done|]. apply elem_of_cons. auto.
        * rewrite bool_decide_eq_false_2; [done|].
          intros Hc. apply elem_of_cons in Hc. tauto. }
  split; [apply Hl|].
  intros t offer Hin. unfold handleOffer, createPeerConnection.
  rewrite Hl. destruct (peers m !! t); [done|].
  by rewrite bool_decide_eq_true_2.
Qed.

(** The roster lists A and B: the fresh page opens a link to each. *)
Lemma roster_opens_links_witness :
  peers (handleRoomJoined Scenario.fresh [Scenario.sA; Scenario.sB])
    !! Scenario.sB = Some (mkPeer true [])
  /\ handleOffer (handleRoomJoined Scenario.fresh [Scenario.sA; Scenario.sB])
       Scenario.sB (VObj 5)
     = handleRoomJoined Scenario.fresh [Scenario.sA; Scenario.sB].
Proof.
  destruct (roster_opens_links Scenario.fresh [Scenario.sA; Scenario.sB])
    as [Hlook Hoffer].
  split.
  - rewrite Hlook. vm_compute. reflexivity.
  - apply Hoffer. apply elem_of_cons. right. apply elem_of_cons. left.
    reflexivity.
Defined.

(** X20. With a local stream, each press of the mute button flips the mute
    flag, sets the audio track's [enabled] flag to its negation and sends the
    new flag to the relay, so the flags sent alternate; without a local stream
    a press does nothing and sends nothing. *)
Theorem mute_button (n : nat) (mic : Mic) :
  if hasStream mic then
    isMuted (fst (toggles n mic)) = xorb (Nat.odd n) (isMuted mic)
    /\ length (snd (toggles n mic)) = n
    /\ alternates (isMuted mic) (snd (toggles n mic))
    /\ hasStream (fst (toggles n mic)) = true
    /\ (n = 0%nat
        \/ trackEnabled (fst (toggles n mic)) = negb (isMuted (fst (toggles n mic))))
  else toggles n mic = (mic, []).
Proof.
  destruct (hasStream mic) eqn:Hs.
  - revert mic Hs. induction n as [|n IH]; intros mic Hs.
    + simpl. rewrite Hs. destruct (isMuted mic); repeat split; auto.
    + cbn [toggles]. unfold toggleMute. rewrite Hs. cbn [negb].
      specialize (IH (mkMic true (negb (isMuted mic))
                        (negb (negb (isMuted mic))))).
      cbn [hasStream isMuted] in IH. specialize (IH eq_refl).
      destruct (toggles n _) as [mic2 sent2] eqn:Et.
      destruct IH as (Hm & Hl & Ha & Hst & Htr). cbn [fst snd] in *.
      split.
      { rewrite Hm, Nat.odd_succ, <- Nat.negb_odd.
        by destruct (Nat.odd n), (isMuted mic). }
      split; [simpl; by rewrite Hl|].
      split; [simpl; split; [done|exact Ha]|].
      split; [done|]. right.
      destruct Htr as [->|Htr]; [|done].
      simpl in Et. injection Et as <- <-. simpl. by destruct (isMuted mic).
  - induction n as [|n IH]; [done|].
    cbn [toggles]. unfold toggleMute. rewrite Hs. cbn [negb].
    by rewrite IH.
Qed.

End MeshFacts.

(** ** The history of the speaking detector *)

Module HistoryFacts.
Import WebRTC Mesh.

Lemma lastN_short {A} n (l : list A) : (length l <= n)%nat -> lastN n l = l.
Proof. intros H. unfold lastN. by replace (length l - n)%nat with 0%nat by lia. Qed.

Lemma lastN_length {A} n (l : list A) : length (lastN n l) = Nat.min n (length l).
Proof. unfold lastN. rewrite length_drop. lia. Qed.

Lemma lastN_snoc {A} n (a : list A) v :
  lastN (S n) (lastN (S n) a ++ [v]) = lastN (S n) (a ++ [v]).
Proof.
  unfold lastN. rewrite !length_app, length_drop. simpl.
  destruct (decide (length a <= S n)%nat) as [Hle|Hgt].
  - replace (length a - S n)%nat with 0%nat by lia. simpl.
    by rewrite Nat.sub_0_r.
  - replace (length a - (length a - S n) + 1 - S n)%nat with 1%nat by lia.
    replace (length a + 1 - S n)%nat with (S (length a - S n)) by lia.
    rewrite drop_app_le by (rewrite length_drop; lia).
    rewrite drop_drop. rewrite drop_app_le by lia.
    do 2 f_equal. lia.
Qed.

Lemma pushHistory_lastN n h v :
  (length h <= S n)%nat -> pushHistory (S n) h v = lastN (S n) (h ++ [v]).
Proof.
  intros Hle. unfold pushHistory, lastN. rewrite length_app. simpl.
  destruct (Nat.ltb_spec (S n) (length h + 1)) as [Hlt|Hge].
  - replace (length h + 1 - S n)%nat with 1%nat by lia.
    by destruct h.
  - by replace (length h + 1 - S n)%nat with 0%nat by lia.
Qed.

Lemma checkAudioLevel_history cb sid d w :
  volumeHistory (fst (checkAudioLevel cb sid d w))
  = pushHistory 50 (volumeHistory d) (volumeOf w).
Proof. unfold checkAudioLevel. by destruct (negb _). Qed.

Lemma checkLocalAudioLevel_history cb muted d w :
  localHistory (fst (checkLocalAudioLevel cb true muted d w))
  = pushHistory 100 (localHistory d) (volumeOf w).
Proof. unfold checkLocalAudioLevel. simpl. by destruct (negb _). Qed.

Lemma monitor_history cb sid ws : forall d a,
  volumeHistory d = lastN 50 a ->
  volumeHistory (fst (monitor cb sid d ws))
  = lastN 50 (a ++ List.map volumeOf ws).
Proof.
  induction ws as [|w ws IH]; intros d a Hd.
  - simpl. by rewrite app_nil_r.
  - cbn [monitor].
    pose proof (checkAudioLevel_history cb sid d w) as Hh.
    destruct (checkAudioLevel cb sid d w) as [d1 e1]. cbn [fst] in Hh.
    specialize (IH d1 (a ++ [volumeOf w])).
    destruct (monitor cb sid d1 ws) as [d2 e2]. cbn [fst] in *.
    rewrite IH.
    + by rewrite <- app_assoc.
    + rewrite Hh, Hd, pushHistory_lastN by (rewrite lastN_length; lia).
      apply lastN_snoc.
Qed.

Lemma monitorLocal_history cb ws : forall d a,
  localHistory d = lastN 100 a ->
  localHistory (fst (monitorLocal cb d ws))
  = lastN 100 (a ++ List.map (fun mw => volumeOf (snd mw)) ws).
Proof.
  induction ws as [|[muted w] ws IH]; intros d a Hd.
  - simpl. by rewrite app_nil_r.
  - cbn [monitorLocal].
    pose proof (checkLocalAudioLevel_history cb muted d w) as Hh.
    destruct (checkLocalAudioLevel cb true muted d w) as [d1 e1].
    cbn [fst] in Hh.
    specialize (IH d1 (a ++ [volumeOf w])).
    destruct (monitorLocal cb d1 ws) as [d2 e2]. cbn [fst] in *.
    rewrite IH.
    + by rewrite <- app_assoc.
    + rewrite Hh, Hd, pushHistory_lastN by (rewrite lastN_length; lia).
      apply lastN_snoc.
Qed.

(** X21. The detector's history is a sliding window: after any number of
    ticks a remote detector holds the volumes of the last 50 windows and the
    local detector those of the last 100, oldest first; it is never longer,
    and never empty once a tick has run, so the average that sets the
    threshold is taken over at least one value. *)
Theorem history_is_sliding_window (cb : bool) (sid : jsstring)
    (ws : list (list N)) (lws : list (bool * list N)) :
  volumeHistory (fst (monitor cb sid newDetector ws))
  = lastN 50 (List.map volumeOf ws)
  /\ localHistory (fst (monitorLocal cb newLocalDetector lws))
     = lastN 100 (List.map (fun mw => volumeOf (snd mw)) lws)
  /\ length (volumeHistory (fst (monitor cb sid newDetector ws)))
     = Nat.min 50 (length ws)
  /\ length (localHistory (fst (monitorLocal cb newLocalDetector lws)))
     = Nat.min 100 (length lws).
Proof.
  assert (H1 : volumeHistory (fst (monitor cb sid newDetector ws))
               = lastN 50 (List.map volumeOf ws)).
  { by rewrite (monitor_history cb sid ws newDetector []). }
  assert (H2 : localHistory (fst (monitorLocal cb newLocalDetector lws))
               = lastN 100 (List.map (fun mw => volumeOf (snd mw)) lws)).
  { by rewrite (monitorLocal_history cb lws newLocalDetector []). }
  split; [exact H1|]. split; [exact H2|].
  rewrite H1, H2, !lastN_length, !length_map. done.
Qed.

Lemma muted_tick cb d w :
  checkLocalAudioLevel cb true true d w
  = (fst (checkLocalAudioLevel cb true true d w),
     if cb && isLocalSpeaking d then [Speaking (lit "local") false] else [])
  /\ isLocalSpeaking (fst (checkLocalAudioLevel cb true true d w)) = false.
Proof.
  unfold checkLocalAudioLevel. simpl. rewrite andb_false_r. simpl.
  destruct (isLocalSpeaking d), cb; simpl; done.
Qed.

(** X22. While the microphone stays muted the local detector reports at most
    once: if it was speaking, the first muted tick reports that it stopped;
    nothing else is reported however loud the input, and the flag is false
    after the first tick. *)
Theorem muted_run_is_silent (cb : bool) (d : LocalDetector)
    (ws : list (list N)) :
  snd (monitorLocal cb d (List.map (fun w => (true, w)) ws))
  = (if cb && isLocalSpeaking d && negb (Nat.eqb (length ws) 0)
     then [Speaking (lit "local") false] else [])
  /\ (ws = []
      \/ isLocalSpeaking
           (fst (monitorLocal cb d (List.map (fun w => (true, w)) ws))) = false).
Proof.
  revert d. induction ws as [|w ws IH]; intros d.
  - simpl. rewrite andb_false_r. auto.
  - cbn [List.map monitorLocal].
    destruct (muted_tick cb d w) as [Ht Hf].
    destruct (checkLocalAudioLevel cb true true d w) as [d1 e1].
    injection Ht as He1. cbn [fst] in Hf.
    specialize (IH d1). rewrite Hf, andb_false_r in IH. cbn [andb] in IH.
    destruct (monitorLocal cb d1 (List.map (fun w => (true, w)) ws))
      as [d2 e2] eqn:E2.
    cbn [fst snd] in *. destruct IH as [-> Hfin]. rewrite app_nil_r, He1.
    split.
    + simpl. by rewrite andb_true_r.
    + right. destruct Hfin as [->|Hfin]; [|done].
      simpl in E2. by injection E2 as <-.
Qed.

End HistoryFacts.

